(** * Simon-Clone: the game logic of [main.py], embedded and verified

    The program drives four LED/button pairs on a Raspberry Pi.  The
    embedding follows the source class by class ([LED], [Button], [Pair],
    [Pattern], [Game]).  Python's mutable objects are threaded through a
    state-and-exception monad; the hardware, the wall clock and the random
    generator live in one [World] record, the clock and the generator as
    oracles that are read in order.  Python's floats are IEEE binary64
    numbers, which are the primitive floats of Rocq: [speed], the clock and
    the pauses are computed exactly as the interpreter computes them. *)

From Stdlib Require Import ZArith List String Floats.PrimFloat Lia.
From stdpp Require Import base option list gmap.

Set Warnings "-inexact-float".
Local Open Scope Z_scope.

(** ** The Python runtime: exceptions, state, loops, sequences *)

Module Py.

(** The two built-in exceptions the program can raise. *)
Inductive exn : Type :=
| IndexError
| ValueError.

(** How a call ends.  [NoFuel] is not a Python outcome: it marks a [while]
    loop that was unrolled further than the model allows.  The one loop of
    the program is shown never to get there. *)
Inductive result (A : Type) : Type :=
| Ok (a : A)
| Raise (e : exn)
| NoFuel.

Arguments Ok {A} a.
Arguments Raise {A} e.
Arguments NoFuel {A}.

(** A computation over a mutable state [S].  The state is returned in every
    case: what was mutated before an exception stays mutated. *)
Definition M (S A : Type) : Type := S -> result A * S.

Definition ret {S A} (a : A) : M S A := fun s => (Ok a, s).

Definition bind {S A B} (m : M S A) (k : A -> M S B) : M S B :=
  fun s =>
    match m s with
    | (Ok a, s') => k a s'
    | (Raise e, s') => (Raise e, s')
    | (NoFuel, s') => (NoFuel, s')
    end.

Definition raise {S A} (e : exn) : M S A := fun s => (Raise e, s).

Definition get {S} : M S S := fun s => (Ok s, s).

Definition gets {S A} (f : S -> A) : M S A := fun s => (Ok (f s), s).

Definition modify {S} (f : S -> S) : M S unit := fun s => (Ok tt, f s).

#[global] Instance M_ret {S} : MRet (M S) := fun A a => ret a.
#[global] Instance M_bind {S} : MBind (M S) := fun A B k m => bind m k.

(** Run a computation whose state is the second component of a pair. *)
Definition lift {X S A} (m : M S A) : M (X * S) A :=
  fun xs => let (r, s') := m (snd xs) in (r, (fst xs, s')).

(** [for x in l: body] over a list that the body does not change. *)
Fixpoint for_ {S A} (l : list A) (body : A -> M S unit) : M S unit :=
  match l with
  | [] => ret tt
  | x :: l' => bind (body x) (fun _ => for_ l' body)
  end.

(** [len(l)] *)
Definition len {A} (l : list A) : Z := Z.of_nat (length l).

(** [l[i]] with Python's negative indices; [None] stands for IndexError. *)
Definition item {A} (l : list A) (i : Z) : option A :=
  if 0 <=? i then l !! Z.to_nat i
  else if - len l <=? i then l !! Z.to_nat (len l + i)
  else None.

Definition getitem {S A} (l : list A) (i : Z) : M S A :=
  match item l i with
  | Some x => ret x
  | None => raise IndexError
  end.

(** [range(start, stop, step)] for a non-zero step. *)
Definition range (start stop step : Z) : list Z :=
  let n :=
    if 0 <? step then (stop - start + step - 1) / step
    else (start - stop - step - 1) / (- step) in
  map (fun k => start + Z.of_nat k * step) (seq 0 (Z.to_nat n)).

(** Numbers as the program mixes them: [cooling] returns the int [10] or a
    float. *)
Inductive number : Type :=
| Int (z : Z)
| Float (f : float).

Fixpoint float_of_pos (p : positive) : float :=
  match p with
  | xH => 1%float
  | xO q => PrimFloat.mul 2%float (float_of_pos q)
  | xI q => PrimFloat.add (PrimFloat.mul 2%float (float_of_pos q)) 1%float
  end.

Definition float_of_Z (z : Z) : float :=
  match z with
  | Z0 => 0%float
  | Zpos p => float_of_pos p
  | Zneg p => PrimFloat.opp (float_of_pos p)
  end.

(** [x > y] for a float [y]; the ints the program compares are small, so
    the conversion is exact. *)
Definition exceeds (x : number) (y : float) : bool :=
  match x with
  | Int z => PrimFloat.ltb y (float_of_Z z)
  | Float f => PrimFloat.ltb y f
  end.

(** Truth value of a float: everything but zero. *)
Definition truthy (f : float) : bool := negb (PrimFloat.eqb f 0%float).

End Py.

Export Py.

(** ** The world outside the objects *)

(** What the program does to the outside, in order. *)
Inductive event : Type :=
| Setup (port : Z) (out : bool)
| Output (port : Z) (level : bool)
| Sleep (secs : float).

Record World : Type := mkWorld {
  pins : gmap Z bool;          (* level of every GPIO channel *)
  stamps : gmap nat float;     (* [last_time] of every Button object, by
                                  identity; absent means [None] *)
  objects : nat;               (* identities handed out so far *)
  clock : nat -> float;        (* successive readings of [time.time()] *)
  ticks : nat;                 (* readings taken so far *)
  dice : nat -> nat;           (* successive draws of [random] *)
  draws : nat;                 (* draws taken so far *)
  trace : list event
}.

Definition with_pins (f : gmap Z bool -> gmap Z bool) (w : World) : World :=
  mkWorld (f (pins w)) (stamps w) (objects w) (clock w) (ticks w)
          (dice w) (draws w) (trace w).

Definition with_stamps (f : gmap nat float -> gmap nat float) (w : World) : World :=
  mkWorld (pins w) (f (stamps w)) (objects w) (clock w) (ticks w)
          (dice w) (draws w) (trace w).

Definition with_objects (n : nat) (w : World) : World :=
  mkWorld (pins w) (stamps w) n (clock w) (ticks w)
          (dice w) (draws w) (trace w).

Definition with_ticks (n : nat) (w : World) : World :=
  mkWorld (pins w) (stamps w) (objects w) (clock w) n
          (dice w) (draws w) (trace w).

Definition with_draws (n : nat) (w : World) : World :=
  mkWorld (pins w) (stamps w) (objects w) (clock w) (ticks w)
          (dice w) n (trace w).

Definition log (e : event) (w : World) : World :=
  mkWorld (pins w) (stamps w) (objects w) (clock w) (ticks w)
          (dice w) (draws w) (trace w ++ [e]).

(** [time.time()]: the next reading of the clock. *)
Definition time_time : M World float :=
  fun w => (Ok (clock w (ticks w)), with_ticks (S (ticks w)) w).

(** [time.sleep(secs)]: CPython refuses a negative or NaN duration with
    ValueError before it sleeps. *)
Definition sleep_accepts (secs : float) : bool := PrimFloat.leb 0%float secs.

Definition time_sleep (secs : float) : M World unit :=
  if sleep_accepts secs then modify (log (Sleep secs)) else raise ValueError.

(** [random.choice(seq)]: IndexError on an empty sequence, otherwise the
    element the next draw selects. *)
Definition random_choice {A} (l : list A) : M World A :=
  match l with
  | [] => raise IndexError
  | x :: _ =>
      fun w =>
        (Ok (nth (dice w (draws w) mod length l)%nat l x),
         with_draws (S (draws w)) w)
  end.

(** ** RPi.GPIO, as far as the program uses it

    The library is not part of the repository.  A channel holds one level:
    [output] drives it and [input] reads it; [setup] configures a channel
    and leaves its level alone.  The level of an input channel is what the
    pull-up and the button make it: it is set from outside, high while the
    button is released and low while it is pressed. *)

Module GPIO.

Definition HIGH : bool := true.
Definition LOW : bool := false.

Definition setup_out (port : Z) : M World unit :=
  modify (log (Setup port true)).

(** [GPIO.setup(port, GPIO.IN, pull_up_down=GPIO.PUD_UP)] *)
Definition setup_in_pull_up (port : Z) : M World unit :=
  modify (log (Setup port false)).

Definition output (port : Z) (level : bool) : M World unit :=
  modify (fun w => log (Output port level) (with_pins (insert port level) w)).

Definition input (port : Z) : M World bool :=
  gets (fun w => default LOW (pins w !! port)).

End GPIO.

(** ** class LED *)

Module LED.

Record t : Type := mk {
  gpio_port : Z;
  type : string;
  color : string
}.

Definition __init__ (gpio_port : Z) (color : string) : M World t :=
  GPIO.setup_out gpio_port;;
  mret (mk gpio_port "DIGITAL" color).

Definition toggle (self : t) (directive : string) : M World unit :=
  if String.eqb directive "On"
  then GPIO.output (gpio_port self) GPIO.HIGH
  else GPIO.output (gpio_port self) GPIO.LOW.

Definition status (self : t) : M World string :=
  _status ← GPIO.input (gpio_port self);
  if _status : bool then mret "On"%string else mret "Off"%string.

End LED.

(** ** class Button

    A Button is mutable ([last_time]) and is compared by identity, so the
    value below is a reference: [id] is the identity of the object, and its
    [last_time] is kept in the world under that identity. *)

Module Button.

Record t : Type := mk {
  id : nat;
  button_port : Z
}.

(** [a is b] *)
Definition is_ (a b : t) : bool := Nat.eqb (id a) (id b).

Definition __init__ (button_port : Z) : M World t :=
  self ← gets objects;
  modify (with_objects (S self));;
  GPIO.setup_in_pull_up button_port;;
  modify (with_stamps (delete self));;
  mret (mk self button_port).

Definition released (self : t) : M World bool :=
  GPIO.input (button_port self).

Definition cooling (self : t) : M World number :=
  last_time ← gets (fun w => stamps w !! id self);
  seconds ←
    match last_time with
    | Some last =>
        if truthy last
        then now ← time_time; mret (Some (PrimFloat.sub now last))
        else mret None
    | None => mret None
    end;
  now ← time_time;
  modify (with_stamps (insert (id self) now));;
  match seconds with
  | Some s => if truthy s then mret (Float s) else mret (Int 10)
  | None => mret (Int 10)
  end.

End Button.

(** ** class Pair *)

Module Pair.

Record t : Type := mk {
  button : Button.t;
  led : LED.t
}.

End Pair.

(** ** class Pattern *)

Module Pattern.

Record t : Type := mk {
  pairs : list Pair.t;
  new : bool;
  cycle : float;
  pattern : list Pair.t
}.

Definition St : Type := t * World.

Definition set_new (b : bool) : M St unit :=
  modify (fun s => (mk (pairs s.1) b (cycle s.1) (pattern s.1), s.2)).

Definition set_pattern (l : list Pair.t) : M St unit :=
  modify (fun s => (mk (pairs s.1) (new s.1) (cycle s.1) l, s.2)).

(** [self.pattern.append(random.choice(self.pairs))] *)
Definition append_choice : M St unit :=
  self ← gets fst;
  pair ← lift (random_choice (pairs self));
  set_pattern (pattern self ++ [pair]).

Definition add : M St bool :=
  append_choice;;
  set_new true;;
  mret true.

Definition generate : M St bool :=
  set_pattern [];;
  for_ (range 0 3 1) (fun item => append_choice);;
  set_new true;;
  mret true.

(** The body shared by the two sweeps: flash [self.pairs[i]]. *)
Definition flash (i : Z) : M St unit :=
  self ← gets fst;
  pair ← getitem (pairs self) i;
  lift (LED.toggle (Pair.led pair) "On");;
  lift (time_sleep (cycle self));;
  pair ← getitem (pairs self) i;
  lift (LED.toggle (Pair.led pair) "Off").

Definition cycle_forward : M St unit :=
  self ← gets fst;
  for_ (range 1 (len (pairs self)) 1) flash.

Definition cycle_backward : M St unit :=
  self ← gets fst;
  for_ (range (len (pairs self) - 2) (-1) (-1)) flash.

(** [while iterations < 10: ...; iterations += 1], unrolled at most [fuel]
    times. *)
Fixpoint cycle_lights_loop (fuel : nat) (iterations : Z) : M St unit :=
  if iterations <? 10 then
    match fuel with
    | O => fun s => (NoFuel, s)
    | S fuel' =>
        cycle_forward;;
        cycle_backward;;
        cycle_lights_loop fuel' (iterations + 1)
    end
  else mret tt.

Definition cycle_lights : M St unit := cycle_lights_loop 10 0.

(** [Pattern(pairs)] *)
Definition __init__ (pairs : list Pair.t) : M World t :=
  fun w =>
    let (r, s) := generate (mk pairs false 0.06%float [], w) in
    match r with
    | Ok _ => (Ok s.1, s.2)
    | Raise e => (Raise e, s.2)
    | NoFuel => (NoFuel, s.2)
    end.

End Pattern.

(** ** class Game *)

Module Game.

Record t : Type := mk {
  pairs : list Pair.t;
  speed : float;
  pattern : Pattern.t;
  index : Z
}.

Definition St : Type := t * World.

Definition set_speed (v : float) : M St unit :=
  modify (fun s => (mk (pairs s.1) v (pattern s.1) (index s.1), s.2)).

Definition set_index (i : Z) : M St unit :=
  modify (fun s => (mk (pairs s.1) (speed s.1) (pattern s.1) i, s.2)).

(** Call a method of [self.pattern]. *)
Definition on_pattern {A} (m : M Pattern.St A) : M St A :=
  fun s =>
    let (r, ps) := m (pattern s.1, s.2) in
    (r, (mk (pairs s.1) (speed s.1) ps.1 (index s.1), ps.2)).

(** [Game(pairs)] *)
Definition __init__ (pairs : list Pair.t) : M World t :=
  pattern ← Pattern.__init__ pairs;
  mret (mk pairs 1.00%float pattern 0).

Definition show_pattern : M St unit :=
  self ← gets fst;
  for_ (Pattern.pattern (pattern self)) (fun pair =>
    lift (LED.toggle (Pair.led pair) "On");;
    speed ← gets (fun s => speed s.1);
    lift (time_sleep speed);;
    lift (LED.toggle (Pair.led pair) "Off");;
    lift (time_sleep 0.2%float)).

Definition start : M St unit :=
  on_pattern Pattern.cycle_lights;;
  on_pattern Pattern.generate;;
  show_pattern.

Definition reset : M St unit :=
  set_index 0;;
  set_speed 1.00%float;;
  on_pattern Pattern.generate;;
  on_pattern Pattern.cycle_lights;;
  show_pattern.

Definition watch_pair (pair : Pair.t) : M St unit :=
  released ← lift (Button.released (Pair.button pair));
  if negb released then
    cooling ← lift (Button.cooling (Pair.button pair));
    status ← lift (LED.status (Pair.led pair));
    if String.eqb status "Off" then
      (if exceeds cooling 0.05%float then
         self ← gets fst;
         expected ← getitem (Pattern.pattern (pattern self)) (index self);
         if Button.is_ (Pair.button pair) (Pair.button expected)
         then set_index (index self + 1)
         else reset
       else mret tt);;
      lift (LED.toggle (Pair.led pair) "On")
    else mret tt
  else lift (LED.toggle (Pair.led pair) "Off").

(** [self.watch_pair(self.pairs[i])] *)
Definition watch (i : Z) : M St unit :=
  self ← gets fst;
  pair ← getitem (pairs self) i;
  watch_pair pair.

Definition run : M St unit :=
  self ← gets fst;
  (if len (Pattern.pattern (pattern self)) <=? index self then
     for_ (pairs self) (fun pair => lift (LED.toggle (Pair.led pair) "Off"));;
     set_speed (PrimFloat.sub (speed self) 0.1%float);;
     on_pattern Pattern.add;;
     show_pattern;;
     set_index 0
   else mret tt);;
  watch 0;;
  watch 1;;
  watch 2;;
  watch 3.

End Game.

(** ** The program's entry code and its surroundings *)

Module Main.

(** The objects [__main__] builds before the loop, up to [Game(pairs)].
    ([GPIO.cleanup()] is left out: it only releases the channels.) *)
Definition setup : M World Game.t :=
  yellow_led ← LED.__init__ 18 "yellow";
  blue_led ← LED.__init__ 23 "blue";
  green_led ← LED.__init__ 19 "green";
  red_led ← LED.__init__ 20 "red";
  yellow_button ← Button.__init__ 17;
  blue_button ← Button.__init__ 16;
  green_button ← Button.__init__ 13;
  red_button ← Button.__init__ 12;
  let yellow_pair := Pair.mk yellow_button yellow_led in
  let blue_pair := Pair.mk blue_button blue_led in
  let green_pair := Pair.mk green_button green_led in
  let red_pair := Pair.mk red_button red_led in
  let pairs := [yellow_pair; blue_pair; green_pair; red_pair] in
  Game.__init__ pairs.

(** A world in which nothing has happened yet. *)
Definition boot (clock : nat -> float) (dice : nat -> nat) : World :=
  mkWorld ∅ ∅ 0 clock 0 dice 0 [].

End Main.

(** The player: between two polls the buttons of the pool may be pressed
    (level low) or released (level high). *)
Definition touch (port : Z) (level : bool) (s : Game.St) : Game.St :=
  (s.1, with_pins (insert port level) s.2).

Definition hold (levels : list (Z * bool)) (s : Game.St) : Game.St :=
  fold_left (fun s pl => touch pl.1 pl.2 s) levels s.

(** The states of a session: after launch, after the player touched a
    button of the pool, and after an iteration of the loop that returned. *)
Inductive session : Game.St -> Prop :=
| session_launch pairs w g w' s :
    Game.__init__ pairs w = (Ok g, w') ->
    Game.start (g, w') = (Ok tt, s) ->
    session s
| session_touch s pair level :
    session s ->
    pair ∈ Game.pairs s.1 ->
    session (touch (Button.button_port (Pair.button pair)) level s)
| session_run s s' :
    session s ->
    Game.run s = (Ok tt, s') ->
    session s'.

(** ** Descriptions used in the statements *)

(** The effect on the world of a list of hardware events. *)
Definition apply_event (w : World) (e : event) : World :=
  match e with
  | Output port level => log e (with_pins (insert port level) w)
  | Setup port out => log e w
  | Sleep secs => log e w
  end.

Definition emit (evs : list event) (w : World) : World :=
  fold_left apply_event evs w.

(** A computation that never runs out of fuel. *)
Definition fuelled {S A} (m : M S A) : Prop := forall s, (m s).1 <> NoFuel.

(** One visit of the attract animation: the LED on, the pause, the LED off. *)
Definition visit (pause : float) (pair : Pair.t) : list event :=
  [Output (LED.gpio_port (Pair.led pair)) true;
   Sleep pause;
   Output (LED.gpio_port (Pair.led pair)) false].

(** The pool without its first element, in order. *)
Definition forward_sweep (pool : list Pair.t) : list Pair.t := drop 1 pool.

(** The pool without its last element, in reverse. *)
Definition backward_sweep (pool : list Pair.t) : list Pair.t :=
  reverse (take (length pool - 1) pool).

Definition sweep_events (pause : float) (pool : list Pair.t) : list event :=
  flat_map (visit pause) (forward_sweep pool) ++
  flat_map (visit pause) (backward_sweep pool).

(** What [show_pattern] does for one element of the pattern. *)
Definition show (speed : float) (pair : Pair.t) : list event :=
  [Output (LED.gpio_port (Pair.led pair)) true;
   Sleep speed;
   Output (LED.gpio_port (Pair.led pair)) false;
   Sleep 0.2%float].

(** The pair the next draw of [random.choice] selects from a pool. *)
Definition drawn (pool : list Pair.t) (w : World) (k : nat) : option Pair.t :=
  pool !! (dice w (draws w + k) mod length pool)%nat.

(** The class invariant of a game built by [Game(pairs)]: one non-empty
    pool shared with the pattern, and the animation pause of the
    constructor. *)
Record built (g : Game.t) : Prop := {
  built_pool : Pattern.pairs (Game.pattern g) = Game.pairs g;
  built_nonempty : Game.pairs g <> [];
  built_cycle : Pattern.cycle (Game.pattern g) = 0.06%float
}.

(** [speed] after [n] rounds: 0.1 subtracted [n] times from 1.00, each time
    rounded as Python rounds. *)
Definition speed_after (n : nat) : float :=
  Nat.iter n (fun v => PrimFloat.sub v 0.1%float) 1.00%float.

(** No event of the list drives or configures the channel [port]. *)
Definition quiet (port : Z) (evs : list event) : Prop :=
  Forall (fun e => match e with
                   | Output p _ | Setup p _ => p <> port
                   | Sleep _ => True
                   end) evs.

(** No LED the game drives is wired to the channel of [pair]'s button. *)
Definition apart (g : Game.t) (pair : Pair.t) : Prop :=
  forall q, q ∈ Game.pairs g ++ Pattern.pattern (Game.pattern g) ->
    LED.gpio_port (Pair.led q) <> Button.button_port (Pair.button pair).

(** The button of [pair] reads released. *)
Definition idle (w : World) (pair : Pair.t) : Prop :=
  Button.released (Pair.button pair) w = (Ok true, w).

(** The game in which a round has just been completed with the draw of
    [x], its [index] set to [i]. *)
Definition extended (g : Game.t) (x : Pair.t) (i : Z) : Game.t :=
  Game.mk (Game.pairs g) (PrimFloat.sub (Game.speed g) 0.1%float)
          (Pattern.mk (Pattern.pairs (Game.pattern g)) true
                      (Pattern.cycle (Game.pattern g))
                      (Pattern.pattern (Game.pattern g) ++ [x]))
          i.

(** The game with one more pair matched. *)
Definition advanced (g : Game.t) : Game.t :=
  Game.mk (Game.pairs g) (Game.speed g) (Game.pattern g) (Game.index g + 1).

(** The game a [reset] leaves, given the three pairs it draws. *)
Definition fresh_game (g : Game.t) (a b c : Pair.t) : Game.t :=
  Game.mk (Game.pairs g) 1.00%float
          (Pattern.mk (Pattern.pairs (Game.pattern g)) true
                      (Pattern.cycle (Game.pattern g)) [a; b; c]) 0.

(** What one poll of one pair can do to the game object: nothing, one more
    pair matched, or a reset. *)
Inductive polled (g : Game.t) : Game.t -> Prop :=
| polled_same : polled g g
| polled_match expected :
    item (Pattern.pattern (Game.pattern g)) (Game.index g) = Some expected ->
    polled g (advanced g)
| polled_reset w1 a b c w2 :
    Game.reset (g, w1) = (Ok tt, (fresh_game g a b c, w2)) ->
    polled g (fresh_game g a b c).

(** The state in which [watch_pair pair], entered in [s], reaches its call
    of [self.reset()]: the button read pressed, [cooling()] taken, the LED
    read 'Off', the reading above 0.05 and the button not the expected
    one.  [None] when the call is not reached. *)
Definition reset_point (pair : Pair.t) (s : Game.St) : option Game.St :=
  match Button.released (Pair.button pair) s.2 with
  | (Ok false, w0) =>
      match Button.cooling (Pair.button pair) w0 with
      | (Ok cooling, w1) =>
          match LED.status (Pair.led pair) w1 with
          | (Ok status, w2) =>
              if String.eqb status "Off" && exceeds cooling 0.05%float then
                match item (Pattern.pattern (Game.pattern s.1)) (Game.index s.1) with
                | Some expected =>
                    if Button.is_ (Pair.button pair) (Pair.button expected)
                    then None
                    else Some (s.1, w2)
                | None => None
                end
              else None
          | _ => None
          end
      | _ => None
      end
  | _ => None
  end.

(** The part of [run] that comes before the polls. *)
Definition complete_round : M Game.St unit :=
  self ← gets fst;
  if len (Pattern.pattern (Game.pattern self)) <=? Game.index self then
    for_ (Game.pairs self) (fun pair => lift (LED.toggle (Pair.led pair) "Off"));;
    Game.set_speed (PrimFloat.sub (Game.speed self) 0.1%float);;
    Game.on_pattern Pattern.add;;
    Game.show_pattern;;
    Game.set_index 0
  else mret tt.

(** The first [n] polls of [run]. *)
Fixpoint polls (n : nat) : M Game.St unit :=
  match n with
  | O => mret tt
  | S k => polls k;; Game.watch (Z.of_nat k)
  end.

(** [run] up to, and not including, its poll of [pairs[i]]. *)
Definition tick_until (i : nat) : M Game.St unit :=
  complete_round;; polls i.

(** The rounds completed since the pattern was last generated: [generate]
    leaves three pairs and every completed round appends one. *)
Definition rounds_won (g : Game.t) : nat :=
  length (Pattern.pattern (Game.pattern g)) - 3.

(** What holds of the game object throughout a session: the class
    invariant, at least three pairs in the pattern, an [index] between 0
    and the length of the pattern, and the speed that belongs to the number
    of rounds completed. *)
Record sound (g : Game.t) : Prop := {
  sound_built : built g;
  sound_length : (3 <= length (Pattern.pattern (Game.pattern g)))%nat;
  sound_index : 0 <= Game.index g <= len (Pattern.pattern (Game.pattern g));
  sound_speed : Game.speed g = speed_after (rounds_won g)
}.

(** One LED driven to a level. *)
Definition lamp (pair : Pair.t) (level : bool) : list event :=
  [Output (LED.gpio_port (Pair.led pair)) level].

(** The world after a call of [cooling] that took [n] readings of the
    clock, the last of them being the new stamp. *)
Definition restamped (b : Button.t) (n : nat) (w : World) : World :=
  with_stamps (insert (Button.id b) (clock w (n + ticks w - 1)%nat))
              (with_ticks (n + ticks w) w).

(** The world a [reset] leaves: three draws, the animation, the new pattern
    shown at speed 1.00. *)
Definition fresh_world (g : Game.t) (a b c : Pair.t) (w : World) : World :=
  emit (flat_map (show 1.00%float) [a; b; c])
    (emit (concat (replicate 10
             (sweep_events (Pattern.cycle (Game.pattern g))
                           (Pattern.pairs (Game.pattern g)))))
       (with_draws (3 + draws w) w)).

(** The game after a completed round in which [x] was drawn. *)
Definition next_round (g : Game.t) (x : Pair.t) : Game.t := extended g x 0.

(** The world after the branch of [run] that completes a round. *)
Definition round_world (g : Game.t) (x : Pair.t) (w : World) : World :=
  emit (flat_map (show (PrimFloat.sub (Game.speed g) 0.1%float))
                 (Pattern.pattern (Game.pattern g) ++ [x]))
    (with_draws (S (draws w))
       (emit (flat_map (fun pair => lamp pair false) (Game.pairs g)) w)).

(** The pool [__main__] builds when [first] objects exist already: the
    four buttons are the next four objects. *)
Definition main_pool (first : nat) : list Pair.t :=
  [Pair.mk (Button.mk first 17) (LED.mk 18 "DIGITAL" "yellow");
   Pair.mk (Button.mk (1 + first) 16) (LED.mk 23 "DIGITAL" "blue");
   Pair.mk (Button.mk (2 + first) 13) (LED.mk 19 "DIGITAL" "green");
   Pair.mk (Button.mk (3 + first) 12) (LED.mk 20 "DIGITAL" "red")].

(** No LED of the pool is wired to the channel of a button of the pool. *)
Definition wired (pool : list Pair.t) : Prop :=
  forall p q, p ∈ pool -> q ∈ pool ->
    LED.gpio_port (Pair.led q) <> Button.button_port (Pair.button p).

(** ** A concrete session, for the examples

    The wiring of [__main__]; a clock that advances by one second per
    reading; draws that make [start] choose yellow, blue, green. *)

Module Demo.

Definition clock (n : nat) : float :=
  Nat.iter n (fun t => PrimFloat.add t 1%float) 1000%float.

Definition dice (n : nat) : nat := S n.

(** The board before the program is launched: no button is held, so the
    four input channels read high. *)
Definition world : World :=
  with_pins (fun _ => {[17 := true; 16 := true; 13 := true; 12 := true]})
            (Main.boot clock dice).

(** The objects [__main__] builds. *)
Definition yellow : Pair.t := Pair.mk (Button.mk 0 17) (LED.mk 18 "DIGITAL" "yellow").
Definition blue : Pair.t := Pair.mk (Button.mk 1 16) (LED.mk 23 "DIGITAL" "blue").
Definition green : Pair.t := Pair.mk (Button.mk 2 13) (LED.mk 19 "DIGITAL" "green").
Definition red : Pair.t := Pair.mk (Button.mk 3 12) (LED.mk 20 "DIGITAL" "red").
Definition pool : list Pair.t := [yellow; blue; green; red].

(** The world once [__main__] has built the four LEDs and four buttons,
    and the game its constructor returns there. *)
Definition assembled : World :=
  emit [Setup 18 true; Setup 23 true; Setup 19 true; Setup 20 true;
        Setup 17 false; Setup 16 false; Setup 13 false; Setup 12 false]
       (with_objects 4 world).

Definition constructed : Game.t :=
  Game.mk pool 1.00%float (Pattern.mk pool true 0.06%float [blue; green; red]) 0.

(** The state in which the loop is entered: the constructed game after
    [game.start()]. *)
Definition started : Game.St :=
  (Game.start (constructed, (Game.__init__ pool assembled).2)).2.

(** One iteration of the loop, after the player set some button levels. *)
Definition tick (levels : list (Z * bool)) (s : Game.St) : result unit * Game.St :=
  Game.run (hold levels s).

Definition all_released : list (Z * bool) :=
  [(17, true); (16, true); (13, true); (12, true)].

(** Press exactly the button on [port]. *)
Definition only (port : Z) : list (Z * bool) :=
  map (fun p => (p, negb (p =? port))) [17; 16; 13; 12].

(** A script is what the player does from poll to poll. *)
Definition after (script : list (list (Z * bool))) (s : Game.St) : Game.St :=
  fold_left (fun s levels => (tick levels s).2) script s.

(** Every poll of the script returns. *)
Fixpoint fine (script : list (list (Z * bool))) (s : Game.St) : bool :=
  match script with
  | [] => true
  | levels :: rest =>
      match tick levels s with
      | (Ok _, s') => fine rest s'
      | _ => false
      end
  end.

(** The player repeats a pattern without a mistake: before each press one
    poll finds all buttons released, the next finds the expected button
    held. *)
Definition presses (l : list Pair.t) : list (list (Z * bool)) :=
  flat_map (fun pair => [all_released; only (Button.button_port (Pair.button pair))]) l.

(** The pattern of [s] repeated; the last button is still held. *)
Definition replay (s : Game.St) : Game.St :=
  after (presses (Pattern.pattern (Game.pattern s.1))) s.

(** The pattern has been repeated and the last button let go: the state in
    which the next poll finds the round complete. *)
Definition repeated (s : Game.St) : Game.St := hold all_released (replay s).

(** A whole round: the replay, and the poll that completes it. *)
Definition round (s : Game.St) : Game.St := (Game.run (repeated s)).2.

Definition round_fine (s : Game.St) : bool :=
  fine (presses (Pattern.pattern (Game.pattern s.1)) ++ [all_released]) s.

Fixpoint rounds (n : nat) (s : Game.St) : Game.St :=
  match n with
  | O => s
  | S n' => rounds n' (round s)
  end.

Fixpoint rounds_fine (n : nat) (s : Game.St) : bool :=
  match n with
  | O => true
  | S n' => round_fine s && rounds_fine n' (round s)
  end.

(** A clock whose first two readings coincide, as a coarse clock's do. *)
Definition coarse_clock (n : nat) : float :=
  match n with
  | O | S O => 1000%float
  | _ => clock n
  end.

(** The red button is pressed together with the last button of the
    pattern, after two correct presses. *)
Definition two_matched : Game.St :=
  after [all_released; only 17; all_released; only 16] started.

Definition green_and_red : list (Z * bool) :=
  [(17, true); (16, true); (13, false); (12, false)].

(** The loop has just been entered and the player holds one button. *)
Definition pressing (port : Z) : Game.St := hold (only port) started.

(** The yellow button is held, and was stamped a hundredth of a second
    before the next reading of the clock. *)
Definition bouncing : Game.St :=
  ((pressing 17).1,
   with_stamps (insert 0%nat (PrimFloat.sub (clock (ticks (pressing 17).2)) 0.01%float))
               (pressing 17).2).

(** A game over the first three pairs only. *)
Definition short_pool : Game.t :=
  Game.mk [yellow; blue; green] 1.00%float
          (Pattern.mk [yellow; blue; green] true 0.06%float [blue; green; yellow]) 0.

End Demo.

(** * Verification *)

(** ** Stepping through the monad *)

Lemma bind_ok {S A B} (m : M S A) (k : A -> M S B) s a s' :
  m s = (Ok a, s') -> (m ≫= k) s = k a s'.
Proof. intros H. unfold mbind, M_bind, bind. now rewrite H. Qed.

Lemma bind_raise {S A B} (m : M S A) (k : A -> M S B) s e s' :
  m s = (Raise e, s') -> (m ≫= k) s = (Raise e, s').
Proof. intros H. unfold mbind, M_bind, bind. now rewrite H. Qed.

Lemma lift_ok {X S A} (m : M S A) (x : X) s a s' :
  m s = (Ok a, s') -> lift m (x, s) = (Ok a, (x, s')).
Proof. intros H. unfold lift. simpl. now rewrite H. Qed.

Lemma for__cons_ok {S A} (x : A) (l : list A) (body : A -> M S unit) s s1 :
  body x s = (Ok tt, s1) ->
  for_ (x :: l) body s = for_ l body s1.
Proof. intros H. simpl. unfold bind. now rewrite H. Qed.

(** ** Hardware events *)

Lemma emit_app evs1 evs2 w : emit (evs1 ++ evs2) w = emit evs2 (emit evs1 w).
Proof. apply fold_left_app. Qed.

Lemma apply_event_frame e w :
  stamps (apply_event w e) = stamps w /\
  objects (apply_event w e) = objects w /\
  clock (apply_event w e) = clock w /\
  ticks (apply_event w e) = ticks w /\
  dice (apply_event w e) = dice w /\
  draws (apply_event w e) = draws w /\
  trace (apply_event w e) = trace w ++ [e].
Proof. destruct e as [port []|port level|secs]; repeat split. Qed.

Lemma emit_frame evs w :
  stamps (emit evs w) = stamps w /\
  objects (emit evs w) = objects w /\
  clock (emit evs w) = clock w /\
  ticks (emit evs w) = ticks w /\
  dice (emit evs w) = dice w /\
  draws (emit evs w) = draws w /\
  trace (emit evs w) = trace w ++ evs.
Proof.
  revert w. induction evs as [|e evs IH]; intros w; simpl.
  - rewrite app_nil_r. repeat split.
  - destruct (IH (apply_event w e)) as (-> & -> & -> & -> & -> & -> & ->).
    destruct (apply_event_frame e w) as (-> & -> & -> & -> & -> & -> & ->).
    rewrite <- app_assoc. repeat split.
Qed.

(** A channel that no event of the list drives or sets up keeps its level. *)
Lemma emit_pins_other evs w port :
  quiet port evs -> pins (emit evs w) !! port = pins w !! port.
Proof.
  unfold quiet. revert w. induction evs as [|e evs IH]; intros w H; [reflexivity|].
  inversion H as [|? ? He Hevs]; subst. simpl. rewrite (IH _ Hevs).
  destruct e as [p []|p level|secs]; simpl; try reflexivity;
    now apply lookup_insert_ne.
Qed.

Lemma toggle_on led w :
  LED.toggle led "On" w = (Ok tt, emit [Output (LED.gpio_port led) true] w).
Proof. reflexivity. Qed.

Lemma toggle_off led w :
  LED.toggle led "Off" w = (Ok tt, emit [Output (LED.gpio_port led) false] w).
Proof. reflexivity. Qed.

Lemma sleep_ok secs w :
  sleep_accepts secs = true -> time_sleep secs w = (Ok tt, emit [Sleep secs] w).
Proof. intros H. unfold time_sleep. now rewrite H. Qed.

Lemma sleep_refused secs w :
  sleep_accepts secs = false -> time_sleep secs w = (Raise ValueError, w).
Proof. intros H. unfold time_sleep. now rewrite H. Qed.

(** ** Sequences *)

Lemma item_nat {A} (l : list A) (i : nat) : item l (Z.of_nat i) = l !! i.
Proof.
  unfold item. destruct (Z.leb_spec 0 (Z.of_nat i)); [|lia].
  now rewrite Nat2Z.id.
Qed.

Lemma item_Some_bounds {A} (l : list A) i x :
  item l i = Some x -> - len l <= i < len l.
Proof.
  unfold item, len. intros H.
  destruct (Z.leb_spec 0 i).
  - apply lookup_lt_Some in H. lia.
  - destruct (Z.leb_spec (- Z.of_nat (length l)) i); [|discriminate].
    apply lookup_lt_Some in H. lia.
Qed.

Lemma range_up_length start stop :
  length (range start stop 1) = Z.to_nat (stop - start).
Proof.
  unfold range. simpl. rewrite length_map, length_seq, Z.div_1_r.
  f_equal. lia.
Qed.

Lemma range_up_lookup start stop (k : nat) i :
  range start stop 1 !! k = Some i -> i = start + Z.of_nat k.
Proof.
  unfold range. simpl. rewrite list_lookup_fmap.
  destruct (seq 0 _ !! k) as [j|] eqn:E; [|discriminate].
  apply lookup_seq in E as [-> _]. simpl. intros [= <-]. lia.
Qed.

Lemma range_down_length start :
  length (range start (-1) (-1)) = Z.to_nat (start + 1).
Proof.
  unfold range. simpl. rewrite length_map, length_seq, Z.div_1_r.
  f_equal. lia.
Qed.

Lemma range_down_lookup start (k : nat) i :
  range start (-1) (-1) !! k = Some i -> i = start - Z.of_nat k.
Proof.
  unfold range. simpl. rewrite list_lookup_fmap.
  destruct (seq 0 _ !! k) as [j|] eqn:E; [|discriminate].
  apply lookup_seq in E as [-> _]. simpl. intros [= <-]. lia.
Qed.

(** [range(1, len(pool))] walks the pool without its first element. *)
Lemma range_forward_sweep (pool : list Pair.t) :
  Forall2 (fun i pair => item pool i = Some pair)
          (range 1 (len pool) 1) (forward_sweep pool).
Proof.
  apply Forall2_same_length_lookup_2.
  - rewrite range_up_length. unfold forward_sweep, len.
    rewrite length_drop. lia.
  - intros k i pair Hi Hp. apply range_up_lookup in Hi. subst i.
    unfold forward_sweep in Hp. rewrite lookup_drop in Hp.
    replace (1 + Z.of_nat k) with (Z.of_nat (1 + k)) by lia.
    now rewrite item_nat.
Qed.

(** [range(len(pool) - 2, -1, -1)] walks the pool without its last element,
    backwards. *)
Lemma range_backward_sweep (pool : list Pair.t) :
  Forall2 (fun i pair => item pool i = Some pair)
          (range (len pool - 2) (-1) (-1)) (backward_sweep pool).
Proof.
  apply Forall2_same_length_lookup_2.
  - rewrite range_down_length. unfold backward_sweep, len.
    rewrite length_reverse, length_take. lia.
  - intros k i pair Hi Hp. apply range_down_lookup in Hi. subst i.
    unfold backward_sweep in Hp.
    apply reverse_lookup_Some in Hp as [Hp Hk].
    rewrite length_take in *.
    apply lookup_take_Some in Hp as [Hp _].
    unfold len.
    replace (Z.of_nat (length pool) - 2 - Z.of_nat k)
      with (Z.of_nat ((length pool - 1) `min` length pool - S k)) by lia.
    now rewrite item_nat.
Qed.

(** ** The example session *)

Example demo_setup :
  Main.setup Demo.world =
  (Ok Demo.constructed, (Game.__init__ Demo.pool Demo.assembled).2).
Proof. vm_compute. reflexivity. Qed.

Example demo_started :
  (Game.start (Demo.constructed, (Game.__init__ Demo.pool Demo.assembled).2)).1 = Ok tt /\
  Game.pairs Demo.started.1 = Demo.pool /\
  Pattern.pattern (Game.pattern Demo.started.1) = [Demo.yellow; Demo.blue; Demo.green] /\
  Game.index Demo.started.1 = 0 /\
  Game.speed Demo.started.1 = 1.00%float.
Proof. vm_compute. repeat split. Qed.

(** ** The attract animation *)

Ltac unfold_m :=
  unfold mbind, M_bind, mret, M_ret, bind, ret, gets, modify, getitem, raise, lift.

Lemma flash_ok p w i pair :
  item (Pattern.pairs p) i = Some pair ->
  sleep_accepts (Pattern.cycle p) = true ->
  Pattern.flash i (p, w) = (Ok tt, (p, emit (visit (Pattern.cycle p) pair) w)).
Proof.
  intros Hi Hs. unfold Pattern.flash. unfold_m. simpl.
  rewrite Hi. simpl. unfold time_sleep. rewrite Hs. reflexivity.
Qed.

Lemma for_flash p w (indices : list Z) (visited : list Pair.t) :
  Forall2 (fun i pair => item (Pattern.pairs p) i = Some pair) indices visited ->
  sleep_accepts (Pattern.cycle p) = true ->
  for_ indices Pattern.flash (p, w) =
  (Ok tt, (p, emit (flat_map (visit (Pattern.cycle p)) visited) w)).
Proof.
  intros H Hs. revert w.
  induction H as [|i pair indices visited Hi _ IH]; intros w; [reflexivity|].
  cbn [for_ flat_map]. unfold bind. rewrite (flash_ok _ _ _ _ Hi Hs).
  rewrite IH. now rewrite emit_app.
Qed.

Lemma cycle_forward_ok p w :
  sleep_accepts (Pattern.cycle p) = true ->
  Pattern.cycle_forward (p, w) =
  (Ok tt, (p, emit (flat_map (visit (Pattern.cycle p)) (forward_sweep (Pattern.pairs p))) w)).
Proof.
  intros Hs. unfold Pattern.cycle_forward. unfold_m. simpl.
  now apply for_flash; [apply range_forward_sweep|].
Qed.

Lemma cycle_backward_ok p w :
  sleep_accepts (Pattern.cycle p) = true ->
  Pattern.cycle_backward (p, w) =
  (Ok tt, (p, emit (flat_map (visit (Pattern.cycle p)) (backward_sweep (Pattern.pairs p))) w)).
Proof.
  intros Hs. unfold Pattern.cycle_backward. unfold_m. simpl.
  now apply for_flash; [apply range_backward_sweep|].
Qed.

(** The loop of [cycle_lights], entered with [iterations] and enough fuel
    for the sweeps that remain, performs exactly those sweeps. *)
Lemma cycle_lights_loop_ok p (remaining : nat) : forall w fuel iterations,
  sleep_accepts (Pattern.cycle p) = true ->
  iterations = 10 - Z.of_nat remaining ->
  (remaining <= fuel)%nat ->
  Pattern.cycle_lights_loop fuel iterations (p, w) =
  (Ok tt, (p, emit (concat (replicate remaining
                      (sweep_events (Pattern.cycle p) (Pattern.pairs p)))) w)).
Proof.
  induction remaining as [|r IH]; intros w fuel iterations Hs Hit Hfuel.
  - destruct fuel; simpl; destruct (Z.ltb_spec iterations 10); try lia; reflexivity.
  - destruct fuel as [|fuel]; [lia|]. simpl.
    destruct (Z.ltb_spec iterations 10); [|lia].
    rewrite (bind_ok _ _ _ _ _ (cycle_forward_ok p w Hs)).
    rewrite (bind_ok _ _ _ _ _ (cycle_backward_ok p _ Hs)).
    rewrite (IH _ fuel (iterations + 1) Hs) by lia.
    unfold sweep_events. now rewrite !emit_app.
Qed.

Lemma cycle_lights_ok p w :
  sleep_accepts (Pattern.cycle p) = true ->
  Pattern.cycle_lights (p, w) =
  (Ok tt, (p, emit (concat (replicate 10
                      (sweep_events (Pattern.cycle p) (Pattern.pairs p)))) w)).
Proof.
  intros Hs. unfold Pattern.cycle_lights.
  now apply (cycle_lights_loop_ok p 10).
Qed.

Lemma forward_sweep_lookup (pool : list Pair.t) (k : nat) :
  forward_sweep pool !! k = pool !! S k.
Proof. unfold forward_sweep. now rewrite lookup_drop. Qed.

Lemma backward_sweep_lookup (pool : list Pair.t) (k : nat) :
  (S k < length pool)%nat ->
  backward_sweep pool !! k = pool !! (length pool - 2 - k)%nat.
Proof.
  intros Hk. unfold backward_sweep.
  rewrite reverse_lookup by (rewrite length_take; lia).
  rewrite length_take, lookup_take_lt by lia. f_equal. lia.
Qed.

Lemma fuelled_bind {S A B} (m : M S A) (k : A -> M S B) :
  fuelled m -> (forall a, fuelled (k a)) -> fuelled (m ≫= k).
Proof.
  intros Hm Hk s. unfold mbind, M_bind, bind. specialize (Hm s).
  destruct (m s) as [[a|e|] s1]; simpl in *; [apply Hk | discriminate | congruence].
Qed.

Lemma fuelled_for_ {S A} (l : list A) (body : A -> M S unit) :
  (forall x, fuelled (body x)) -> fuelled (for_ l body).
Proof.
  intros Hb. induction l as [|x l IH]; [discriminate|].
  exact (fuelled_bind (body x) _ (Hb x) (fun _ => IH)).
Qed.

Lemma fuelled_lift {X S A} (m : M S A) : fuelled m -> fuelled (@lift X S A m).
Proof.
  intros Hm [x s]. unfold lift. simpl. specialize (Hm s).
  now destruct (m s) as [r s1].
Qed.

Lemma fuelled_getitem {S A} (l : list A) i : fuelled (@getitem S A l i).
Proof. intros s. unfold getitem. now destruct (item l i). Qed.

Lemma fuelled_toggle led directive : fuelled (LED.toggle led directive).
Proof. intros w. unfold LED.toggle. now destruct (String.eqb _ _). Qed.

Lemma fuelled_sleep secs : fuelled (time_sleep secs).
Proof. intros w. unfold time_sleep. now destruct (sleep_accepts secs). Qed.

Lemma fuelled_flash i : fuelled (Pattern.flash i).
Proof.
  unfold Pattern.flash.
  apply fuelled_bind; [discriminate|]. intros self.
  apply fuelled_bind; [apply fuelled_getitem|]. intros pair.
  apply fuelled_bind; [apply fuelled_lift, fuelled_toggle|]. intros _.
  apply fuelled_bind; [apply fuelled_lift, fuelled_sleep|]. intros _.
  apply fuelled_bind; [apply fuelled_getitem|]. intros pair'.
  apply fuelled_lift, fuelled_toggle.
Qed.

(** The fuel [cycle_lights] passes to its loop is always enough. *)
Lemma fuelled_cycle_lights : fuelled Pattern.cycle_lights.
Proof.
  assert (Hf : fuelled Pattern.cycle_forward).
  { apply fuelled_bind; [discriminate|]. intros self.
    apply fuelled_for_, fuelled_flash. }
  assert (Hb : fuelled Pattern.cycle_backward).
  { apply fuelled_bind; [discriminate|]. intros self.
    apply fuelled_for_, fuelled_flash. }
  assert (Hloop : forall fuel iterations,
             10 - iterations <= Z.of_nat fuel ->
             fuelled (Pattern.cycle_lights_loop fuel iterations)).
  { induction fuel as [|fuel IH]; intros iterations Hle; simpl;
      destruct (Z.ltb_spec iterations 10); try discriminate; [lia|].
    apply fuelled_bind; [exact Hf|]. intros _.
    apply fuelled_bind; [exact Hb|]. intros _.
    apply IH. lia. }
  apply Hloop. simpl. lia.
Qed.

(** C10.  With the pause the constructor sets, the animation returns and
    does exactly this: [cycle_forward] flashes the pool's LEDs at the
    indices 1, 2, ..., n-1 in that order, [cycle_backward] at n-2, ..., 1, 0
    in that order, each visit being LED on, pause, LED off; and
    [cycle_lights] is ten forward-then-backward sweeps in a row. *)
Theorem attract_animation_sweeps (p : Pattern.t) (w : World) :
  Pattern.cycle p = 0.06%float ->
  let pool := Pattern.pairs p in
  Pattern.cycle_forward (p, w) =
    (Ok tt, (p, emit (flat_map (visit 0.06%float) (forward_sweep pool)) w)) /\
  Pattern.cycle_backward (p, w) =
    (Ok tt, (p, emit (flat_map (visit 0.06%float) (backward_sweep pool)) w)) /\
  Pattern.cycle_lights (p, w) =
    (Ok tt, (p, emit (concat (replicate 10 (sweep_events 0.06%float pool))) w)) /\
  length (forward_sweep pool) = (length pool - 1)%nat /\
  (forall k : nat, forward_sweep pool !! k = pool !! S k) /\
  length (backward_sweep pool) = (length pool - 1)%nat /\
  (forall k : nat, (S k < length pool)%nat ->
     backward_sweep pool !! k = pool !! (length pool - 2 - k)%nat).
Proof.
  intros Hc pool.
  assert (Hs : sleep_accepts (Pattern.cycle p) = true) by now rewrite Hc.
  pose proof (cycle_forward_ok p w Hs) as Hf.
  pose proof (cycle_backward_ok p w Hs) as Hb.
  pose proof (cycle_lights_ok p w Hs) as Hl.
  rewrite Hc in Hf, Hb, Hl.
  repeat split; try assumption.
  - unfold forward_sweep. now rewrite length_drop.
  - apply forward_sweep_lookup.
  - unfold backward_sweep. rewrite length_reverse, length_take. lia.
  - apply backward_sweep_lookup.
Qed.

Lemma attract_animation_sweeps_witness :
  Pattern.cycle_forward (Game.pattern Demo.started.1, Demo.world) =
    (Ok tt, (Game.pattern Demo.started.1,
             emit (flat_map (visit 0.06%float) [Demo.blue; Demo.green; Demo.red])
                  Demo.world)) /\
  Pattern.cycle_backward (Game.pattern Demo.started.1, Demo.world) =
    (Ok tt, (Game.pattern Demo.started.1,
             emit (flat_map (visit 0.06%float) [Demo.green; Demo.blue; Demo.yellow])
                  Demo.world)).
Proof.
  destruct (attract_animation_sweeps (Game.pattern Demo.started.1) Demo.world)
    as (Hf & Hb & _); [reflexivity|].
  split; [exact Hf | exact Hb].
Defined.

(** ** Drawing and growing the pattern *)

Lemma drawn_is_Some (pool : list Pair.t) w k :
  pool <> [] -> exists pair, drawn pool w k = Some pair /\ pair ∈ pool.
Proof.
  intros Hne. unfold drawn.
  destruct (lookup_lt_is_Some_2 pool (dice w (draws w + k) mod length pool)%nat)
    as [pair Hp].
  - apply Nat.mod_upper_bound. destruct pool; [congruence | discriminate].
  - exists pair. split; [assumption|]. apply list_elem_of_lookup. eauto.
Qed.

Lemma random_choice_ok (pool : list Pair.t) w pair :
  drawn pool w 0 = Some pair ->
  random_choice pool w = (Ok pair, with_draws (S (draws w)) w).
Proof.
  unfold drawn, random_choice. rewrite Nat.add_0_r. intros H.
  destruct pool as [|x pool']; [discriminate|].
  now rewrite (nth_lookup_Some _ _ x _ H).
Qed.

Lemma append_choice_ok p w pair :
  drawn (Pattern.pairs p) w 0 = Some pair ->
  Pattern.append_choice (p, w) =
  (Ok tt, (Pattern.mk (Pattern.pairs p) (Pattern.new p) (Pattern.cycle p)
                      (Pattern.pattern p ++ [pair]),
           with_draws (S (draws w)) w)).
Proof.
  intros H. unfold Pattern.append_choice. unfold_m. simpl.
  now rewrite (random_choice_ok _ _ _ H).
Qed.

Lemma add_ok p w pair :
  drawn (Pattern.pairs p) w 0 = Some pair ->
  Pattern.add (p, w) =
  (Ok true, (Pattern.mk (Pattern.pairs p) true (Pattern.cycle p)
                        (Pattern.pattern p ++ [pair]),
             with_draws (S (draws w)) w)).
Proof.
  intros H. unfold Pattern.add.
  rewrite (bind_ok _ _ _ _ _ (append_choice_ok p w pair H)). reflexivity.
Qed.

Lemma add_empty_pool p w :
  Pattern.pairs p = [] -> Pattern.add (p, w) = (Raise IndexError, (p, w)).
Proof.
  intros H. unfold Pattern.add, Pattern.append_choice. unfold_m. simpl.
  rewrite H. reflexivity.
Qed.

Lemma drawn_later (pool : list Pair.t) w n k :
  drawn pool (with_draws (n + draws w) w) k = drawn pool w (n + k).
Proof. unfold drawn. simpl. do 3 f_equal. lia. Qed.

Lemma generate_ok p w a b c :
  drawn (Pattern.pairs p) w 0 = Some a ->
  drawn (Pattern.pairs p) w 1 = Some b ->
  drawn (Pattern.pairs p) w 2 = Some c ->
  Pattern.generate (p, w) =
  (Ok true, (Pattern.mk (Pattern.pairs p) true (Pattern.cycle p) [a; b; c],
             with_draws (3 + draws w) w)).
Proof.
  intros Ha Hb Hc.
  rewrite <- (drawn_later _ w 1 0) in Hb. rewrite <- (drawn_later _ w 2 0) in Hc.
  unfold Pattern.generate. change (range 0 3 1) with [0; 1; 2].
  rewrite (bind_ok (Pattern.set_pattern []) _ (p, w) tt
             (Pattern.mk (Pattern.pairs p) (Pattern.new p) (Pattern.cycle p) [], w))
    by reflexivity.
  erewrite (bind_ok (for_ _ _)).
  2: { erewrite for__cons_ok; [|apply append_choice_ok; exact Ha].
       erewrite for__cons_ok; [|apply append_choice_ok; exact Hb].
       erewrite for__cons_ok; [|apply append_choice_ok; exact Hc].
       reflexivity. }
  reflexivity.
Qed.

Lemma generate_empty_pool p w :
  Pattern.pairs p = [] ->
  Pattern.generate (p, w) =
  (Raise IndexError,
   (Pattern.mk [] (Pattern.new p) (Pattern.cycle p) [], w)).
Proof.
  intros H. unfold Pattern.generate, Pattern.append_choice.
  change (range 0 3 1) with [0; 1; 2]. cbn [for_]. unfold_m. simpl.
  rewrite H. reflexivity.
Qed.

Lemma add_appends_one_length p w :
  Pattern.pairs p <> [] ->
  (Pattern.add (p, w)).1 = Ok true /\
  length (Pattern.pattern (Pattern.add (p, w)).2.1) = S (length (Pattern.pattern p)).
Proof.
  intros Hne. destruct (drawn_is_Some (Pattern.pairs p) w 0 Hne) as (pair & Hd & _).
  rewrite (add_ok p w pair Hd). cbn [fst snd Pattern.pattern].
  split; [reflexivity|]. rewrite length_app. simpl. lia.
Qed.

(** C8.  A pattern over a non-empty pool (the only kind a constructor
    returns): [add] returns, and the new sequence is the old one with one
    pair of the pool appended, so the old sequence is its prefix. *)
Theorem add_appends_one (p : Pattern.t) (w : World) :
  Pattern.pairs p <> [] ->
  let old := Pattern.pattern p in
  let new := Pattern.pattern (Pattern.add (p, w)).2.1 in
  (Pattern.add (p, w)).1 = Ok true /\
  (exists pair, pair ∈ Pattern.pairs p /\ new = old ++ [pair]) /\
  take (length old) new = old /\
  length new = S (length old).
Proof.
  intros Hne old new.
  destruct (drawn_is_Some (Pattern.pairs p) w 0 Hne) as (pair & Hd & Hin).
  subst new. rewrite (add_ok p w pair Hd). cbn [fst snd Pattern.pattern].
  repeat split.
  - now exists pair.
  - now rewrite take_app_length.
  - subst old. rewrite length_app. simpl. lia.
Qed.

Lemma add_appends_one_witness :
  Pattern.pattern (Pattern.add (Game.pattern Demo.started.1, Demo.started.2)).2.1 =
  [Demo.yellow; Demo.blue; Demo.green; Demo.red] /\
  take 3 (Pattern.pattern (Pattern.add (Game.pattern Demo.started.1, Demo.started.2)).2.1) =
  [Demo.yellow; Demo.blue; Demo.green].
Proof.
  destruct (add_appends_one (Game.pattern Demo.started.1) Demo.started.2)
    as (_ & _ & Htake & _); [vm_compute; discriminate|].
  split; [reflexivity | exact Htake].
Defined.

(** ** Showing the pattern and starting over *)

Lemma show_pattern_events g (l : list Pair.t) w :
  sleep_accepts (Game.speed g) = true ->
  for_ l (fun pair =>
      lift (LED.toggle (Pair.led pair) "On");;
      speed ← gets (fun s : Game.St => Game.speed s.1);
      lift (time_sleep speed);;
      lift (LED.toggle (Pair.led pair) "Off");;
      lift (time_sleep 0.2%float)) (g, w) =
  (Ok tt, (g, emit (flat_map (show (Game.speed g)) l) w)).
Proof.
  intros Hs. revert w. induction l as [|pair l IH]; intros w; [reflexivity|].
  erewrite for__cons_ok.
  - rewrite IH. cbn [flat_map]. now rewrite emit_app.
  - unfold_m. simpl. unfold time_sleep. rewrite Hs. reflexivity.
Qed.

Lemma show_pattern_ok g w :
  sleep_accepts (Game.speed g) = true ->
  Game.show_pattern (g, w) =
  (Ok tt, (g, emit (flat_map (show (Game.speed g))
                             (Pattern.pattern (Game.pattern g))) w)).
Proof.
  intros Hs. unfold Game.show_pattern.
  rewrite (bind_ok (gets fst) _ (g, w) g (g, w)) by reflexivity.
  now apply show_pattern_events.
Qed.

(** A refused duration stops [show_pattern] at its first pause, with the
    first LED of the pattern left on. *)
Lemma show_pattern_refused g w pair rest :
  sleep_accepts (Game.speed g) = false ->
  Pattern.pattern (Game.pattern g) = pair :: rest ->
  Game.show_pattern (g, w) =
  (Raise ValueError, (g, emit [Output (LED.gpio_port (Pair.led pair)) true] w)).
Proof.
  intros Hs Hp. unfold Game.show_pattern.
  rewrite (bind_ok (gets fst) _ (g, w) g (g, w)) by reflexivity.
  rewrite Hp. cbn [for_]. unfold_m. simpl. unfold time_sleep. rewrite Hs.
  reflexivity.
Qed.

Lemma reset_ok g w a b c :
  sleep_accepts (Pattern.cycle (Game.pattern g)) = true ->
  drawn (Pattern.pairs (Game.pattern g)) w 0 = Some a ->
  drawn (Pattern.pairs (Game.pattern g)) w 1 = Some b ->
  drawn (Pattern.pairs (Game.pattern g)) w 2 = Some c ->
  Game.reset (g, w) = (Ok tt, (fresh_game g a b c, fresh_world g a b c w)).
Proof.
  intros Hs Ha Hb Hc. unfold Game.reset.
  erewrite (bind_ok (Game.set_index 0)) by reflexivity.
  erewrite (bind_ok (Game.set_speed _)) by reflexivity.
  erewrite (bind_ok (Game.on_pattern Pattern.generate)).
  2: { unfold Game.on_pattern. cbn [fst snd Game.pattern].
       erewrite generate_ok by eassumption. reflexivity. }
  erewrite (bind_ok (Game.on_pattern Pattern.cycle_lights)).
  2: { unfold Game.on_pattern. cbn [fst snd Game.pattern].
       rewrite cycle_lights_ok by exact Hs. reflexivity. }
  cbn [fst snd Game.pairs Game.speed Game.index Pattern.pairs Pattern.cycle].
  rewrite show_pattern_ok by reflexivity. reflexivity.
Qed.

(** ** The debounce timer *)

Lemma cooling_first b w :
  stamps w !! Button.id b = None ->
  Button.cooling b w = (Ok (Int 10), restamped b 1 w).
Proof.
  intros H. unfold Button.cooling. unfold_m. rewrite H. simpl.
  unfold restamped. simpl. now rewrite Nat.sub_0_r.
Qed.

Lemma cooling_later b w last :
  stamps w !! Button.id b = Some last ->
  truthy last = true ->
  let seconds := PrimFloat.sub (clock w (ticks w)) last in
  Button.cooling b w =
  (Ok (if truthy seconds then Float seconds else Int 10), restamped b 2 w).
Proof.
  intros H Ht seconds. unfold Button.cooling. unfold_m. rewrite H, Ht. simpl.
  fold seconds. unfold restamped. simpl. rewrite ?Nat.sub_0_r.
  now destruct (truthy seconds).
Qed.

Lemma cooling_zero_stamp b w last :
  stamps w !! Button.id b = Some last ->
  truthy last = false ->
  Button.cooling b w = (Ok (Int 10), restamped b 1 w).
Proof.
  intros H Ht. unfold Button.cooling. unfold_m. rewrite H, Ht. simpl.
  unfold restamped. simpl. now rewrite Nat.sub_0_r.
Qed.

(** [cooling] always returns, and touches nothing but the clock and the
    stamp of its button. *)
Lemma cooling_total b w :
  exists c n, Button.cooling b w = (Ok c, restamped b n w).
Proof.
  destruct (stamps w !! Button.id b) as [last|] eqn:E.
  - destruct (truthy last) eqn:Et.
    + eexists _, 2%nat. exact (cooling_later b w last E Et).
    + eexists _, 1%nat. now apply (cooling_zero_stamp b w last).
  - eexists _, 1%nat. now apply cooling_first.
Qed.

Lemma restamped_pins b n w : pins (restamped b n w) = pins w.
Proof. reflexivity. Qed.

(** C6, the part that holds: a button without a stamp reads the sentinel
    10; a button with a stamp reads the difference of the clock and the
    stamp whenever that difference is not zero; every call leaves the last
    reading of the clock as the new stamp. *)
Lemma cooling_contract b w :
  (stamps w !! Button.id b = None ->
   (Button.cooling b w).1 = Ok (Int 10)) /\
  (forall last, stamps w !! Button.id b = Some last -> truthy last = true ->
     truthy (PrimFloat.sub (clock w (ticks w)) last) = true ->
     (Button.cooling b w).1 = Ok (Float (PrimFloat.sub (clock w (ticks w)) last))) /\
  (exists n, (0 < n)%nat /\
     stamps (Button.cooling b w).2 !! Button.id b = Some (clock w (n + ticks w - 1)%nat) /\
     ticks (Button.cooling b w).2 = (n + ticks w)%nat).
Proof.
  split; [|split].
  - intros H. now rewrite cooling_first.
  - intros last H Ht Hs. rewrite (cooling_later b w last H Ht). simpl.
    now rewrite Hs.
  - destruct (stamps w !! Button.id b) as [last|] eqn:E.
    + destruct (truthy last) eqn:Et.
      * exists 2%nat. rewrite (cooling_later b w last E Et). simpl.
        split; [lia|]. split; [|reflexivity]. apply lookup_insert_eq.
      * exists 1%nat. rewrite (cooling_zero_stamp b w last E Et). simpl.
        split; [lia|]. split; [|reflexivity]. apply lookup_insert_eq.
    + exists 1%nat. rewrite (cooling_first b w E). simpl.
      split; [lia|]. split; [|reflexivity]. apply lookup_insert_eq.
Qed.

(** C6, where the code departs from it: the second call on a button finds
    the clock where the first call stamped it.  The elapsed time is 0.0,
    and the call returns the sentinel 10, not 0.0. *)
Theorem cooling_at_standstill_returns_sentinel :
  let b := Pair.button Demo.yellow in
  let w := Main.boot Demo.coarse_clock Demo.dice in
  let w1 := (Button.cooling b w).2 in
  (Button.cooling b w).1 = Ok (Int 10) /\
  stamps w1 !! Button.id b = Some 1000%float /\
  PrimFloat.sub (clock w1 (ticks w1)) 1000%float = 0%float /\
  (Button.cooling b w1).1 = Ok (Int 10) /\
  (Button.cooling b w1).1 <> Ok (Float 0%float).
Proof. vm_compute. repeat split; discriminate. Qed.

(** ** One poll of one pair *)

Lemma watch_pair_released pair g w :
  Button.released (Pair.button pair) w = (Ok true, w) ->
  Game.watch_pair pair (g, w) = (Ok tt, (g, emit (lamp pair false) w)).
Proof.
  intros Hr. unfold Game.watch_pair.
  rewrite (bind_ok _ _ _ _ _ (lift_ok _ g _ _ _ Hr)). reflexivity.
Qed.

Section Pressed.

Variables (pair : Pair.t) (g : Game.t) (w w1 : World) (c : number).
Hypothesis Hpressed : Button.released (Pair.button pair) w = (Ok false, w).
Hypothesis Hcooling : Button.cooling (Pair.button pair) w = (Ok c, w1).

Lemma watch_pair_lit :
  LED.status (Pair.led pair) w1 = (Ok "On"%string, w1) ->
  Game.watch_pair pair (g, w) = (Ok tt, (g, w1)).
Proof.
  intros Hon. unfold Game.watch_pair.
  rewrite (bind_ok _ _ _ _ _ (lift_ok _ g _ _ _ Hpressed)). cbn [negb].
  rewrite (bind_ok _ _ _ _ _ (lift_ok _ g _ _ _ Hcooling)).
  rewrite (bind_ok _ _ _ _ _ (lift_ok _ g _ _ _ Hon)). reflexivity.
Qed.

Hypothesis Hoff : LED.status (Pair.led pair) w1 = (Ok "Off"%string, w1).

Lemma watch_pair_bounce :
  exceeds c 0.05%float = false ->
  Game.watch_pair pair (g, w) = (Ok tt, (g, emit (lamp pair true) w1)).
Proof.
  intros Hc. unfold Game.watch_pair.
  rewrite (bind_ok _ _ _ _ _ (lift_ok _ g _ _ _ Hpressed)). cbn [negb].
  rewrite (bind_ok _ _ _ _ _ (lift_ok _ g _ _ _ Hcooling)).
  rewrite (bind_ok _ _ _ _ _ (lift_ok _ g _ _ _ Hoff)).
  cbn [String.eqb Ascii.eqb Bool.eqb]. rewrite Hc. reflexivity.
Qed.

Hypothesis Hcooled : exceeds c 0.05%float = true.

Lemma watch_pair_out_of_range :
  item (Pattern.pattern (Game.pattern g)) (Game.index g) = None ->
  Game.watch_pair pair (g, w) = (Raise IndexError, (g, w1)).
Proof.
  intros Hi. unfold Game.watch_pair.
  rewrite (bind_ok _ _ _ _ _ (lift_ok _ g _ _ _ Hpressed)). cbn [negb].
  rewrite (bind_ok _ _ _ _ _ (lift_ok _ g _ _ _ Hcooling)).
  rewrite (bind_ok _ _ _ _ _ (lift_ok _ g _ _ _ Hoff)).
  cbn [String.eqb Ascii.eqb Bool.eqb]. rewrite Hcooled.
  unfold_m. simpl. rewrite Hi. reflexivity.
Qed.

Variable expected : Pair.t.
Hypothesis Hexpected :
  item (Pattern.pattern (Game.pattern g)) (Game.index g) = Some expected.

Lemma watch_pair_match :
  Button.is_ (Pair.button pair) (Pair.button expected) = true ->
  Game.watch_pair pair (g, w) = (Ok tt, (advanced g, emit (lamp pair true) w1)).
Proof.
  intros Hb. unfold Game.watch_pair.
  rewrite (bind_ok _ _ _ _ _ (lift_ok _ g _ _ _ Hpressed)). cbn [negb].
  rewrite (bind_ok _ _ _ _ _ (lift_ok _ g _ _ _ Hcooling)).
  rewrite (bind_ok _ _ _ _ _ (lift_ok _ g _ _ _ Hoff)).
  cbn [String.eqb Ascii.eqb Bool.eqb]. rewrite Hcooled.
  unfold_m. cbn [fst snd]. rewrite Hexpected. unfold ret. rewrite Hb.
  reflexivity.
Qed.

Lemma watch_pair_mismatch g2 w2 :
  Button.is_ (Pair.button pair) (Pair.button expected) = false ->
  Game.reset (g, w1) = (Ok tt, (g2, w2)) ->
  Game.watch_pair pair (g, w) = (Ok tt, (g2, emit (lamp pair true) w2)).
Proof.
  intros Hb Hreset. unfold Game.watch_pair.
  rewrite (bind_ok _ _ _ _ _ (lift_ok _ g _ _ _ Hpressed)). cbn [negb].
  rewrite (bind_ok _ _ _ _ _ (lift_ok _ g _ _ _ Hcooling)).
  rewrite (bind_ok _ _ _ _ _ (lift_ok _ g _ _ _ Hoff)).
  cbn [String.eqb Ascii.eqb Bool.eqb]. rewrite Hcooled.
  unfold_m. cbn [fst snd]. rewrite Hexpected. unfold ret. rewrite Hb, Hreset.
  reflexivity.
Qed.

End Pressed.

Lemma status_eq led w :
  LED.status led w =
  (Ok (if default false (pins w !! LED.gpio_port led) then "On" else "Off")%string, w).
Proof.
  unfold LED.status, GPIO.input. unfold_m.
  now destruct (default _ _).
Qed.

(** The stamp of the button does not change what the LED reads. *)
Lemma status_after_cooling b led w w1 c st :
  Button.cooling b w = (Ok c, w1) ->
  LED.status led w = (Ok st, w) ->
  LED.status led w1 = (Ok st, w1).
Proof.
  intros Hc Hs. destruct (cooling_total b w) as (c' & n & E).
  rewrite E in Hc. injection Hc as _ <-.
  rewrite status_eq in Hs |- *. rewrite restamped_pins.
  injection Hs as <-. reflexivity.
Qed.

(** C3.  The pair that the pattern expects at [index], with its button
    pressed, its LED off and a cooling reading above 0.05: the call
    returns, [index] is one more, and [pairs], [speed] and [pattern] are
    what they were.  Outside the game object the button has its new stamp
    and the LED is on. *)
Theorem match_advances_index (pair : Pair.t) (g : Game.t) (w w1 : World) (c : number) :
  item (Pattern.pattern (Game.pattern g)) (Game.index g) = Some pair ->
  Button.released (Pair.button pair) w = (Ok false, w) ->
  LED.status (Pair.led pair) w = (Ok "Off"%string, w) ->
  Button.cooling (Pair.button pair) w = (Ok c, w1) ->
  exceeds c 0.05%float = true ->
  let s' := (Game.watch_pair pair (g, w)).2 in
  (Game.watch_pair pair (g, w)).1 = Ok tt /\
  Game.index s'.1 = Game.index g + 1 /\
  Game.pairs s'.1 = Game.pairs g /\
  Game.speed s'.1 = Game.speed g /\
  Game.pattern s'.1 = Game.pattern g /\
  s'.2 = emit (lamp pair true) w1.
Proof.
  intros Hexp Hp Hoff Hc Hgt s'. subst s'.
  rewrite (watch_pair_match pair g w w1 c Hp Hc
             (status_after_cooling _ _ _ _ _ _ Hc Hoff) Hgt pair Hexp).
  - repeat split.
  - unfold Button.is_. apply Nat.eqb_refl.
Qed.

Lemma match_advances_index_witness :
  let s := Demo.pressing 17 in
  (Game.watch_pair Demo.yellow (s.1, s.2)).1 = Ok tt /\
  Game.index (Game.watch_pair Demo.yellow (s.1, s.2)).2.1 = Game.index s.1 + 1.
Proof.
  intros s.
  destruct (match_advances_index Demo.yellow s.1 s.2
              (restamped (Pair.button Demo.yellow) 1 s.2) (Int 10))
    as (Hr & Hi & _); [vm_compute; reflexivity..|].
  split; [exact Hr | exact Hi].
Defined.

(** A pressed, cooled pair with another button than the expected one makes
    [watch_pair] reset the game: three pairs are drawn from the pool, and
    the LED of the pressed pair is lit last. *)
Lemma wrong_button_resets
  (pair expected : Pair.t) (g : Game.t) (w w1 : World) (c : number) :
  built g ->
  item (Pattern.pattern (Game.pattern g)) (Game.index g) = Some expected ->
  Button.is_ (Pair.button pair) (Pair.button expected) = false ->
  Button.released (Pair.button pair) w = (Ok false, w) ->
  LED.status (Pair.led pair) w = (Ok "Off"%string, w) ->
  Button.cooling (Pair.button pair) w = (Ok c, w1) ->
  exceeds c 0.05%float = true ->
  exists x y z,
    x ∈ Game.pairs g /\ y ∈ Game.pairs g /\ z ∈ Game.pairs g /\
    Game.watch_pair pair (g, w) =
    (Ok tt, (fresh_game g x y z, emit (lamp pair true) (fresh_world g x y z w1))).
Proof.
  intros [Hpool Hne Hcycle] Hexp Hb Hp Hoff Hc Hgt.
  rewrite <- Hpool in Hne.
  destruct (drawn_is_Some _ w1 0 Hne) as (x & Hx & Hxin).
  destruct (drawn_is_Some _ w1 1 Hne) as (y & Hy & Hyin).
  destruct (drawn_is_Some _ w1 2 Hne) as (z & Hz & Hzin).
  assert (Hs : sleep_accepts (Pattern.cycle (Game.pattern g)) = true)
    by now rewrite Hcycle.
  exists x, y, z. rewrite <- Hpool. repeat split; try assumption.
  exact (watch_pair_mismatch pair g w w1 c Hp Hc
           (status_after_cooling _ _ _ _ _ _ Hc Hoff) Hgt expected Hexp
           _ _ Hb (reset_ok g w1 x y z Hs Hx Hy Hz)).
Qed.

(** In a pool whose pairs each have a button of their own, as the pool of
    [__main__] has, the same button means the same pair. *)
Lemma own_buttons (pool : list Pair.t) (p q : Pair.t) :
  NoDup ((fun x => Button.id (Pair.button x)) <$> pool) ->
  p ∈ pool -> q ∈ pool ->
  (Button.is_ (Pair.button p) (Pair.button q) = true <-> p = q).
Proof.
  intros Hnd Hp Hq. unfold Button.is_. rewrite Nat.eqb_eq. split.
  - intros Hid.
    apply list_elem_of_lookup in Hp as [i Hi].
    apply list_elem_of_lookup in Hq as [j Hj].
    assert (Hij : i = j).
    { apply (NoDup_lookup _ i j (Button.id (Pair.button p)) Hnd);
        rewrite list_lookup_fmap.
      - now rewrite Hi.
      - rewrite Hj. simpl. now rewrite Hid. }
    subst j. congruence.
  - now intros ->.
Qed.

Lemma demo_own_buttons :
  NoDup ((fun x => Button.id (Pair.button x)) <$> Demo.pool).
Proof.
  cbn. repeat (apply NoDup_cons; split;
    [rewrite ?elem_of_cons, elem_of_nil; lia|]). apply NoDup_nil_2.
Qed.

(** C2.  In a game built by the constructor over a pool in which every
    pair has a button of its own, as in [__main__], let the pattern expect
    at [index] a pair of the pool.  Any other pair of the pool, with its
    button pressed, its LED off and a cooling reading above 0.05, makes
    [watch_pair] return with [index] 0, [speed] 1.00 and a pattern of three
    pairs of the pool. *)
Theorem mismatch_triggers_reset
  (pair expected : Pair.t) (g : Game.t) (w w1 : World) (c : number) :
  built g ->
  NoDup ((fun x => Button.id (Pair.button x)) <$> Game.pairs g) ->
  pair ∈ Game.pairs g ->
  expected ∈ Game.pairs g ->
  item (Pattern.pattern (Game.pattern g)) (Game.index g) = Some expected ->
  pair <> expected ->
  Button.released (Pair.button pair) w = (Ok false, w) ->
  LED.status (Pair.led pair) w = (Ok "Off"%string, w) ->
  Button.cooling (Pair.button pair) w = (Ok c, w1) ->
  exceeds c 0.05%float = true ->
  let s' := (Game.watch_pair pair (g, w)).2 in
  (Game.watch_pair pair (g, w)).1 = Ok tt /\
  Game.index s'.1 = 0 /\
  Game.speed s'.1 = 1.00%float /\
  length (Pattern.pattern (Game.pattern s'.1)) = 3%nat /\
  Forall (fun p => p ∈ Game.pairs g) (Pattern.pattern (Game.pattern s'.1)).
Proof.
  intros Hbuilt Hown Hin Hexpin Hexp Hne Hp Hoff Hc Hgt s'. subst s'.
  assert (Hb : Button.is_ (Pair.button pair) (Pair.button expected) = false).
  { destruct (Button.is_ _ _) eqn:E; [|reflexivity].
    apply (own_buttons (Game.pairs g)) in E; [contradiction | assumption..]. }
  destruct (wrong_button_resets pair expected g w w1 c Hbuilt Hexp Hb Hp Hoff Hc Hgt)
    as (x & y & z & Hx & Hy & Hz & ->).
  cbn [fst snd fresh_game Game.index Game.speed Game.pattern Pattern.pattern].
  repeat split. now repeat constructor.
Qed.

Lemma mismatch_triggers_reset_witness :
  let s := Demo.pressing 16 in
  (Game.watch_pair Demo.blue (s.1, s.2)).1 = Ok tt /\
  Game.index (Game.watch_pair Demo.blue (s.1, s.2)).2.1 = 0 /\
  Game.speed (Game.watch_pair Demo.blue (s.1, s.2)).2.1 = 1.00%float /\
  length (Pattern.pattern (Game.pattern (Game.watch_pair Demo.blue (s.1, s.2)).2.1)) = 3%nat.
Proof.
  intros s.
  assert (E : Game.pairs s.1 = Demo.pool) by (vm_compute; reflexivity).
  destruct (mismatch_triggers_reset Demo.blue Demo.yellow s.1 s.2
              (restamped (Pair.button Demo.blue) 1 s.2) (Int 10))
    as (Hr & Hi & Hs & Hl & _).
  - split; vm_compute; [reflexivity | discriminate | reflexivity].
  - rewrite E. exact demo_own_buttons.
  - rewrite E. unfold Demo.pool. rewrite !elem_of_cons. tauto.
  - rewrite E. unfold Demo.pool. rewrite !elem_of_cons. tauto.
  - vm_compute. reflexivity.
  - discriminate.
  - vm_compute. reflexivity.
  - vm_compute. reflexivity.
  - vm_compute. reflexivity.
  - vm_compute. reflexivity.
  - repeat split; assumption.
Defined.

(** C5.  The comparison the code makes is [pair.button is
    pattern[index].button].  In a game built by the constructor over a
    pool in which every pair has a button of its own, with the invoked pair
    and the expected pair both of the pool, this is the identity of the
    pair: under the guard [watch_pair] advances [index], and changes
    nothing else of the game, if and only if the invoked pair is the
    expected one, and for every other pair it resets the game, whatever
    the colours and ports of the two pairs. *)
Theorem matching_is_by_pair_identity
  (pair expected : Pair.t) (g : Game.t) (w w1 : World) (c : number) :
  built g ->
  NoDup ((fun x => Button.id (Pair.button x)) <$> Game.pairs g) ->
  pair ∈ Game.pairs g ->
  expected ∈ Game.pairs g ->
  item (Pattern.pattern (Game.pattern g)) (Game.index g) = Some expected ->
  0 <= Game.index g ->
  Button.released (Pair.button pair) w = (Ok false, w) ->
  LED.status (Pair.led pair) w = (Ok "Off"%string, w) ->
  Button.cooling (Pair.button pair) w = (Ok c, w1) ->
  exceeds c 0.05%float = true ->
  let s' := (Game.watch_pair pair (g, w)).2 in
  (Game.watch_pair pair (g, w)).1 = Ok tt /\
  (pair = expected -> s'.1 = advanced g) /\
  (pair <> expected ->
   Game.index s'.1 = 0 /\ Game.speed s'.1 = 1.00%float /\
   length (Pattern.pattern (Game.pattern s'.1)) = 3%nat) /\
  (Game.index s'.1 = Game.index g + 1 <-> pair = expected).
Proof.
  intros Hbuilt Hown Hin Hexpin Hexp Hidx Hp Hoff Hc Hgt s'.
  pose proof (status_after_cooling _ _ _ _ _ _ Hc Hoff) as Hoff1.
  pose proof (own_buttons (Game.pairs g) pair expected Hown Hin Hexpin) as Hsame.
  destruct (Button.is_ (Pair.button pair) (Pair.button expected)) eqn:Hb.
  - assert (Heq : pair = expected) by now apply Hsame.
    subst s'.
    rewrite (watch_pair_match pair g w w1 c Hp Hc Hoff1 Hgt expected Hexp Hb).
    cbn [fst snd advanced Game.index].
    split; [reflexivity|]. split; [reflexivity|].
    split; [intros Hne; contradiction|].
    split; [intros _; exact Heq | reflexivity].
  - assert (Hne : pair <> expected).
    { intros Heq. apply Hsame in Heq. discriminate. }
    destruct (wrong_button_resets pair expected g w w1 c
                Hbuilt Hexp Hb Hp Hoff Hc Hgt) as (x & y & z & _ & _ & _ & Hw).
    subst s'. rewrite Hw.
    cbn [fst snd fresh_game Game.index Game.speed Game.pattern Pattern.pattern].
    split; [reflexivity|]. split; [intros Heq; contradiction|].
    split; [intros _; repeat split|].
    split; [intros H0; lia | intros Heq; contradiction].
Qed.

Lemma matching_is_by_pair_identity_witness :
  let s := Demo.pressing 13 in
  (Game.watch_pair Demo.green (s.1, s.2)).1 = Ok tt /\
  (Demo.green <> Demo.yellow ->
   Game.index (Game.watch_pair Demo.green (s.1, s.2)).2.1 = 0 /\
   Game.speed (Game.watch_pair Demo.green (s.1, s.2)).2.1 = 1.00%float /\
   length (Pattern.pattern (Game.pattern (Game.watch_pair Demo.green (s.1, s.2)).2.1)) = 3%nat).
Proof.
  intros s.
  assert (E : Game.pairs s.1 = Demo.pool) by (vm_compute; reflexivity).
  destruct (matching_is_by_pair_identity Demo.green Demo.yellow s.1 s.2
              (restamped (Pair.button Demo.green) 1 s.2) (Int 10))
    as (Hr & _ & Hreset & _).
  - split; vm_compute; [reflexivity | discriminate | reflexivity].
  - rewrite E. exact demo_own_buttons.
  - rewrite E. unfold Demo.pool. rewrite !elem_of_cons. tauto.
  - rewrite E. unfold Demo.pool. rewrite !elem_of_cons. tauto.
  - vm_compute. reflexivity.
  - vm_compute. discriminate.
  - vm_compute. reflexivity.
  - vm_compute. reflexivity.
  - vm_compute. reflexivity.
  - vm_compute. reflexivity.
  - split; [exact Hr | exact Hreset].
Defined.

(** ** One iteration of the loop *)

Lemma all_off_ok (g : Game.t) (l : list Pair.t) w :
  for_ l (fun pair => lift (LED.toggle (Pair.led pair) "Off")) (g, w) =
  (Ok tt, (g, emit (flat_map (fun pair => lamp pair false) l) w)).
Proof.
  revert w. induction l as [|pair l IH]; intros w; [reflexivity|].
  erewrite for__cons_ok by reflexivity. rewrite IH.
  cbn [flat_map]. now rewrite emit_app.
Qed.

Lemma watch_released_ok g w i pair :
  item (Game.pairs g) i = Some pair ->
  idle w pair ->
  Game.watch i (g, w) = (Ok tt, (g, emit (lamp pair false) w)).
Proof.
  intros Hi Hr. unfold Game.watch.
  rewrite (bind_ok (gets fst) _ (g, w) g (g, w)) by reflexivity.
  unfold mbind, M_bind, bind, getitem. rewrite Hi. unfold ret.
  now apply watch_pair_released.
Qed.

Lemma idle_pins w w' pair :
  pins w' !! Button.button_port (Pair.button pair) =
  pins w !! Button.button_port (Pair.button pair) ->
  idle w pair -> idle w' pair.
Proof.
  unfold idle, Button.released, GPIO.input, gets. intros E H.
  injection H as H. now rewrite E, H.
Qed.

Lemma quiet_app port evs1 evs2 :
  quiet port evs1 -> quiet port evs2 -> quiet port (evs1 ++ evs2).
Proof. apply Forall_app_2. Qed.

Lemma quiet_lamps port (l : list Pair.t) level :
  (forall q, q ∈ l -> LED.gpio_port (Pair.led q) <> port) ->
  quiet port (flat_map (fun pair => lamp pair level) l).
Proof.
  intros H. induction l as [|q l IH]; [constructor|].
  cbn [flat_map]. apply quiet_app.
  - repeat constructor. apply H. left.
  - apply IH. intros q' Hq'. apply H. now right.
Qed.

Lemma quiet_shows port (l : list Pair.t) speed :
  (forall q, q ∈ l -> LED.gpio_port (Pair.led q) <> port) ->
  quiet port (flat_map (show speed) l).
Proof.
  intros H. induction l as [|q l IH]; [constructor|].
  cbn [flat_map]. apply quiet_app.
  - assert (LED.gpio_port (Pair.led q) <> port) by (apply H; left).
    repeat constructor; assumption.
  - apply IH. intros q' Hq'. apply H. now right.
Qed.

Lemma emit_draws evs w : draws (emit evs w) = draws w.
Proof. apply emit_frame. Qed.

Lemma drawn_emit (pool : list Pair.t) evs w k :
  drawn pool (emit evs w) k = drawn pool w k.
Proof.
  unfold drawn. destruct (emit_frame evs w) as (_ & _ & _ & _ & -> & -> & _).
  reflexivity.
Qed.

(** The branch of [run] taken when the pattern has been repeated. *)
Lemma round_block_ok g w x :
  drawn (Pattern.pairs (Game.pattern g)) w 0 = Some x ->
  sleep_accepts (PrimFloat.sub (Game.speed g) 0.1%float) = true ->
  (for_ (Game.pairs g) (fun pair => lift (LED.toggle (Pair.led pair) "Off"));;
   Game.set_speed (PrimFloat.sub (Game.speed g) 0.1%float);;
   Game.on_pattern Pattern.add;;
   Game.show_pattern;;
   Game.set_index 0) (g, w) =
  (Ok tt, (next_round g x, round_world g x w)).
Proof.
  intros Hx Hs.
  rewrite (bind_ok _ _ _ _ _ (all_off_ok g (Game.pairs g) w)).
  erewrite (bind_ok (Game.set_speed _)) by reflexivity.
  erewrite (bind_ok (Game.on_pattern Pattern.add)).
  2: { unfold Game.on_pattern. cbn [fst snd Game.pattern].
       erewrite add_ok; [reflexivity|]. rewrite drawn_emit. exact Hx. }
  cbn [fst snd Game.pairs Game.speed Game.index Game.pattern].
  erewrite (bind_ok Game.show_pattern).
  2: { apply show_pattern_ok. exact Hs. }
  unfold next_round, round_world.
  rewrite <- (emit_draws (flat_map (fun pair => lamp pair false) (Game.pairs g)) w).
  reflexivity.
Qed.

Lemma round_world_pins g x w pair :
  built g -> x ∈ Game.pairs g -> apart g pair ->
  pins (round_world g x w) !! Button.button_port (Pair.button pair) =
  pins w !! Button.button_port (Pair.button pair).
Proof.
  intros Hb Hx Hap. unfold round_world.
  rewrite emit_pins_other.
  - cbn [pins with_draws]. apply emit_pins_other, quiet_lamps.
    intros q Hq. apply Hap. apply elem_of_app. now left.
  - apply quiet_shows. intros q Hq. apply Hap.
    apply elem_of_app in Hq as [Hq|Hq]; apply elem_of_app.
    + now right.
    + left. apply list_elem_of_singleton in Hq. now subst.
Qed.

Lemma lamp_pins pair level w other :
  LED.gpio_port (Pair.led pair) <> Button.button_port (Pair.button other) ->
  pins (emit (lamp pair level) w) !! Button.button_port (Pair.button other) =
  pins w !! Button.button_port (Pair.button other).
Proof. intros H. apply emit_pins_other. now repeat constructor. Qed.

(** The four polls that end [run], when the four buttons read released and
    none of the four LEDs is wired to one of their channels. *)
Lemma polls_idle g w p0 p1 p2 p3 rest :
  Game.pairs g = p0 :: p1 :: p2 :: p3 :: rest ->
  Forall (idle w) [p0; p1; p2; p3] ->
  Forall (fun p => forall q, q ∈ [p0; p1; p2; p3] ->
            LED.gpio_port (Pair.led q) <> Button.button_port (Pair.button p))
         [p0; p1; p2; p3] ->
  (Game.watch 0;; Game.watch 1;; Game.watch 2;; Game.watch 3) (g, w) =
  (Ok tt, (g, emit (flat_map (fun p => lamp p false) [p0; p1; p2; p3]) w)).
Proof.
  intros Hp Hidle Hwire.
  apply Forall_cons in Hidle as [I0 Hidle]. apply Forall_cons in Hidle as [I1 Hidle].
  apply Forall_cons in Hidle as [I2 Hidle]. apply Forall_cons in Hidle as [I3 _].
  apply Forall_cons in Hwire as [W0 Hwire]. apply Forall_cons in Hwire as [W1 Hwire].
  apply Forall_cons in Hwire as [W2 Hwire]. apply Forall_cons in Hwire as [W3 _].
  assert (H0 : p0 ∈ [p0; p1; p2; p3]) by repeat constructor.
  assert (H1 : p1 ∈ [p0; p1; p2; p3]) by repeat constructor.
  assert (H2 : p2 ∈ [p0; p1; p2; p3]) by repeat constructor.
  assert (H3 : p3 ∈ [p0; p1; p2; p3]) by repeat constructor.
  assert (E0 : item (Game.pairs g) 0 = Some p0) by now rewrite Hp.
  assert (E1 : item (Game.pairs g) 1 = Some p1) by now rewrite Hp.
  assert (E2 : item (Game.pairs g) 2 = Some p2) by now rewrite Hp.
  assert (E3 : item (Game.pairs g) 3 = Some p3) by now rewrite Hp.
  rewrite (bind_ok _ _ _ _ _ (watch_released_ok g w 0 p0 E0 I0)).
  set (w0 := emit (lamp p0 false) w).
  assert (I1' : idle w0 p1) by (apply (idle_pins w); [apply lamp_pins|]; auto).
  assert (I2' : idle w0 p2) by (apply (idle_pins w); [apply lamp_pins|]; auto).
  assert (I3' : idle w0 p3) by (apply (idle_pins w); [apply lamp_pins|]; auto).
  rewrite (bind_ok _ _ _ _ _ (watch_released_ok g w0 1 p1 E1 I1')).
  set (w1 := emit (lamp p1 false) w0).
  assert (I2'' : idle w1 p2) by (apply (idle_pins w0); [apply lamp_pins|]; auto).
  assert (I3'' : idle w1 p3) by (apply (idle_pins w0); [apply lamp_pins|]; auto).
  rewrite (bind_ok _ _ _ _ _ (watch_released_ok g w1 2 p2 E2 I2'')).
  set (w2 := emit (lamp p2 false) w1).
  assert (I3''' : idle w2 p3) by (apply (idle_pins w1); [apply lamp_pins|]; auto).
  rewrite (watch_released_ok g w2 3 p3 E3 I3''').
  reflexivity.
Qed.

(** Round completion, as far as the code provides it.  A game built by the
    constructor with at least four pairs, [index] equal to the length of
    the pattern, the four polled buttons released and on channels of their
    own, and the decreased speed [speed - 0.1] a duration that
    [time.sleep] accepts: one [run] returns with [index] 0, the pattern
    longer by one pair of the pool, and [speed] the double-precision
    difference [speed - 0.1]. *)
Lemma round_completion
  (g : Game.t) (w : World) (p0 p1 p2 p3 : Pair.t) (rest : list Pair.t) :
  built g ->
  Game.pairs g = p0 :: p1 :: p2 :: p3 :: rest ->
  Game.index g = len (Pattern.pattern (Game.pattern g)) ->
  sleep_accepts (PrimFloat.sub (Game.speed g) 0.1%float) = true ->
  Forall (idle w) [p0; p1; p2; p3] ->
  Forall (apart g) [p0; p1; p2; p3] ->
  let s' := (Game.run (g, w)).2 in
  (Game.run (g, w)).1 = Ok tt /\
  Game.index s'.1 = 0 /\
  length (Pattern.pattern (Game.pattern s'.1)) =
    S (length (Pattern.pattern (Game.pattern g))) /\
  Game.speed s'.1 = PrimFloat.sub (Game.speed g) 0.1%float /\
  (exists x, x ∈ Game.pairs g /\
     Pattern.pattern (Game.pattern s'.1) = Pattern.pattern (Game.pattern g) ++ [x]) /\
  Game.pairs s'.1 = Game.pairs g.
Proof.
  intros Hb Hp Hidx Hs Hidle Hap s'.
  pose proof Hb as [Hpool Hne _].
  destruct (drawn_is_Some (Pattern.pairs (Game.pattern g)) w 0) as (x & Hx & Hxin);
    [now rewrite Hpool|].
  rewrite Hpool in Hxin.
  assert (Hrun : Game.run (g, w) =
            (Ok tt, (next_round g x,
                     emit (flat_map (fun p => lamp p false) [p0; p1; p2; p3])
                          (round_world g x w)))).
  { unfold Game.run.
    rewrite (bind_ok (gets fst) _ (g, w) g (g, w)) by reflexivity.
    replace (len (Pattern.pattern (Game.pattern g)) <=? Game.index g) with true
      by (symmetry; apply Z.leb_le; lia).
    rewrite (bind_ok _ _ _ _ _ (round_block_ok g w x Hx Hs)).
    apply (polls_idle (next_round g x) _ p0 p1 p2 p3 rest Hp).
    - rewrite Forall_forall in Hidle, Hap |- *. intros p Hin.
      apply (idle_pins w); [|now apply Hidle].
      apply round_world_pins; auto.
    - rewrite Forall_forall in Hap |- *. intros p Hin q Hq.
      apply (Hap p Hin). apply elem_of_app. left. rewrite Hp.
      change (q ∈ [p0; p1; p2; p3] ++ rest). apply elem_of_app. now left. }
  subst s'. rewrite Hrun. unfold next_round. cbn [fst snd extended Game.index Game.speed
    Game.pattern Game.pairs Pattern.pattern].
  repeat split.
  - rewrite length_app. simpl. lia.
  - now exists x.
Qed.

Example demo_rounds :
  Game.index (Demo.repeated Demo.started).1 = 3 /\
  map (fun s : Game.St => (Game.index s.1, length (Pattern.pattern (Game.pattern s.1))))
      [Demo.round Demo.started; Demo.rounds 10 Demo.started] =
  [(0, 4%nat); (0, 13%nat)] /\
  Game.speed (Demo.rounds 10 Demo.started).1 = 0x1.4p-53%float.
Proof. vm_compute. repeat split. Qed.

Lemma round_completion_witness :
  let s := Demo.repeated Demo.started in
  (Game.run (s.1, s.2)).1 = Ok tt /\
  Game.index (Game.run (s.1, s.2)).2.1 = 0 /\
  length (Pattern.pattern (Game.pattern (Game.run (s.1, s.2)).2.1)) =
    S (length (Pattern.pattern (Game.pattern s.1))) /\
  Game.speed (Game.run (s.1, s.2)).2.1 = PrimFloat.sub (Game.speed s.1) 0.1%float.
Proof.
  intros s.
  destruct (round_completion s.1 s.2 Demo.yellow Demo.blue Demo.green Demo.red [])
    as (Hr & Hi & Hl & Hs & _).
  - split; vm_compute; [reflexivity | discriminate | reflexivity].
  - vm_compute. reflexivity.
  - vm_compute. reflexivity.
  - vm_compute. reflexivity.
  - repeat constructor; vm_compute; reflexivity.
  - repeat constructor; unfold apart; apply Forall_forall; vm_compute;
      repeat constructor; discriminate.
  - repeat split; assumption.
Defined.


(** ** What a poll and an iteration can do to the game *)

Lemma bind_cases {S A B} (m : M S A) (k : A -> M S B) s r s' :
  (m ≫= k) s = (r, s') ->
  (exists a s1, m s = (Ok a, s1) /\ k a s1 = (r, s')) \/
  (m s = (match r with Raise e => Raise e | _ => NoFuel end, s') /\
   forall b, r <> Ok b).
Proof.
  unfold mbind, M_bind, bind. destruct (m s) as [[a|e|] s1]; intros H.
  - left. eauto.
  - right. injection H as <- <-. split; [reflexivity | discriminate].
  - right. injection H as <- <-. split; [reflexivity | discriminate].
Qed.

Lemma released_eq b w :
  Button.released b w = (Ok (default false (pins w !! Button.button_port b)), w).
Proof. reflexivity. Qed.

Lemma polled_built g g' : polled g g' -> built g -> built g'.
Proof. intros [] [? ? ?]; split; assumption. Qed.

Lemma watch_pair_polled pair g w r g' w' :
  built g ->
  Game.watch_pair pair (g, w) = (r, (g', w')) ->
  polled g g'.
Proof.
  intros Hb. pose proof Hb as [Hpool Hne Hcycle].
  pose proof (released_eq (Pair.button pair) w) as Hr.
  destruct (default false _) in Hr.
  { rewrite (watch_pair_released pair g w Hr). intros [= <- <- <-]. constructor. }
  destruct (cooling_total (Pair.button pair) w) as (c & n & Hc).
  set (w1 := restamped _ n w) in *.
  pose proof (status_eq (Pair.led pair) w1) as Hs.
  destruct (default false _) in Hs.
  { rewrite (watch_pair_lit pair g w w1 c Hr Hc Hs). intros [= <- <- <-]. constructor. }
  destruct (exceeds c 0.05%float) eqn:Hgt.
  2: { rewrite (watch_pair_bounce pair g w w1 c Hr Hc Hs Hgt).
       intros [= <- <- <-]. constructor. }
  destruct (item (Pattern.pattern (Game.pattern g)) (Game.index g))
    as [expected|] eqn:Hi.
  2: { rewrite (watch_pair_out_of_range pair g w w1 c Hr Hc Hs Hgt Hi).
       intros [= <- <- <-]. constructor. }
  destruct (Button.is_ (Pair.button pair) (Pair.button expected)) eqn:His.
  { rewrite (watch_pair_match pair g w w1 c Hr Hc Hs Hgt expected Hi His).
    intros [= <- <- <-]. econstructor. exact Hi. }
  rewrite <- Hpool in Hne.
  destruct (drawn_is_Some _ w1 0 Hne) as (x & Hx & _).
  destruct (drawn_is_Some _ w1 1 Hne) as (y & Hy & _).
  destruct (drawn_is_Some _ w1 2 Hne) as (z & Hz & _).
  assert (Hsl : sleep_accepts (Pattern.cycle (Game.pattern g)) = true)
    by now rewrite Hcycle.
  pose proof (reset_ok g w1 x y z Hsl Hx Hy Hz) as Hreset.
  rewrite (watch_pair_mismatch pair g w w1 c Hr Hc Hs Hgt expected Hi _ _ His Hreset).
  intros [= <- <- <-]. econstructor. exact Hreset.
Qed.

(** A poll that finds [index] inside the pattern returns. *)
Lemma watch_pair_in_bounds pair g w :
  built g ->
  is_Some (item (Pattern.pattern (Game.pattern g)) (Game.index g)) ->
  (Game.watch_pair pair (g, w)).1 = Ok tt.
Proof.
  intros [Hpool Hne Hcycle] [expected Hi].
  pose proof (released_eq (Pair.button pair) w) as Hr.
  destruct (default false _) in Hr.
  { now rewrite (watch_pair_released pair g w Hr). }
  destruct (cooling_total (Pair.button pair) w) as (c & n & Hc).
  set (w1 := restamped _ n w) in *.
  pose proof (status_eq (Pair.led pair) w1) as Hs.
  destruct (default false _) in Hs.
  { now rewrite (watch_pair_lit pair g w w1 c Hr Hc Hs). }
  destruct (exceeds c 0.05%float) eqn:Hgt.
  2: { now rewrite (watch_pair_bounce pair g w w1 c Hr Hc Hs Hgt). }
  destruct (Button.is_ (Pair.button pair) (Pair.button expected)) eqn:His.
  { now rewrite (watch_pair_match pair g w w1 c Hr Hc Hs Hgt expected Hi His). }
  rewrite <- Hpool in Hne.
  destruct (drawn_is_Some _ w1 0 Hne) as (x & Hx & _).
  destruct (drawn_is_Some _ w1 1 Hne) as (y & Hy & _).
  destruct (drawn_is_Some _ w1 2 Hne) as (z & Hz & _).
  assert (Hsl : sleep_accepts (Pattern.cycle (Game.pattern g)) = true)
    by now rewrite Hcycle.
  pose proof (reset_ok g w1 x y z Hsl Hx Hy Hz) as Hreset.
  now rewrite (watch_pair_mismatch pair g w w1 c Hr Hc Hs Hgt expected Hi _ _ His Hreset).
Qed.

Lemma watch_polled i g w r g' w' :
  built g ->
  Game.watch i (g, w) = (r, (g', w')) ->
  polled g g'.
Proof.
  intros Hb. unfold Game.watch.
  rewrite (bind_ok (gets fst) _ (g, w) g (g, w)) by reflexivity.
  unfold mbind, M_bind, bind, getitem.
  destruct (item (Game.pairs g) i) as [pair|].
  - unfold ret. now apply watch_pair_polled.
  - unfold raise. intros [= <- <- <-]. constructor.
Qed.

Lemma polls_polled g w r g' w' :
  built g ->
  (Game.watch 0;; Game.watch 1;; Game.watch 2;; Game.watch 3) (g, w) = (r, (g', w')) ->
  rtc polled g g'.
Proof.
  intros Hb H.
  apply bind_cases in H as [([] & [g0 w0] & H0 & H)|[H _]];
    [|apply watch_polled in H; [now apply rtc_once | assumption]].
  apply watch_polled in H0; [|assumption].
  pose proof (polled_built _ _ H0 Hb) as Hb0.
  apply rtc_l with g0; [assumption|].
  apply bind_cases in H as [([] & [g1 w1] & H1 & H)|[H _]];
    [|apply watch_polled in H; [now apply rtc_once | assumption]].
  apply watch_polled in H1; [|assumption].
  pose proof (polled_built _ _ H1 Hb0) as Hb1.
  apply rtc_l with g1; [assumption|].
  apply bind_cases in H as [([] & [g2 w2] & H2 & H)|[H _]];
    [|apply watch_polled in H; [now apply rtc_once | assumption]].
  apply watch_polled in H2; [|assumption].
  pose proof (polled_built _ _ H2 Hb1) as Hb2.
  apply rtc_l with g2; [assumption|].
  apply watch_polled in H; [now apply rtc_once | assumption].
Qed.

(** The same branch when [time.sleep] refuses the decreased speed: the
    speed and the pattern have changed, [index] has not. *)
Lemma round_block_refused g w x :
  drawn (Pattern.pairs (Game.pattern g)) w 0 = Some x ->
  sleep_accepts (PrimFloat.sub (Game.speed g) 0.1%float) = false ->
  exists w',
  (for_ (Game.pairs g) (fun pair => lift (LED.toggle (Pair.led pair) "Off"));;
   Game.set_speed (PrimFloat.sub (Game.speed g) 0.1%float);;
   Game.on_pattern Pattern.add;;
   Game.show_pattern;;
   Game.set_index 0) (g, w) =
  (Raise ValueError, (extended g x (Game.index g), w')).
Proof.
  intros Hx Hs.
  assert (exists pair rest, Pattern.pattern (Game.pattern g) ++ [x] = pair :: rest)
    as (pair & rest & Hp) by (destruct (Pattern.pattern (Game.pattern g)); simpl; eauto).
  eexists.
  rewrite (bind_ok _ _ _ _ _ (all_off_ok g (Game.pairs g) w)).
  erewrite (bind_ok (Game.set_speed _)) by reflexivity.
  erewrite (bind_ok (Game.on_pattern Pattern.add)).
  2: { unfold Game.on_pattern. cbn [fst snd Game.pattern].
       erewrite add_ok; [reflexivity|]. rewrite drawn_emit. exact Hx. }
  cbn [fst snd Game.pairs Game.speed Game.index Game.pattern].
  erewrite (bind_raise Game.show_pattern).
  2: { apply (show_pattern_refused _ _ pair rest); [exact Hs | exact Hp]. }
  reflexivity.
Qed.

Lemma extended_built g x i : built g -> built (extended g x i).
Proof. intros [? ? ?]; split; assumption. Qed.

(** Every way an iteration of the loop can end, as far as the game object
    goes. *)
Lemma run_cases g w r g' w' :
  built g ->
  Game.run (g, w) = (r, (g', w')) ->
  (Game.index g < len (Pattern.pattern (Game.pattern g)) /\ rtc polled g g') \/
  (len (Pattern.pattern (Game.pattern g)) <= Game.index g /\
   exists x, x ∈ Game.pairs g /\
     (rtc polled (extended g x 0) g' \/
      (g' = extended g x (Game.index g) /\ r = Raise ValueError))).
Proof.
  intros Hb H. pose proof Hb as [Hpool Hne _]. unfold Game.run in H.
  rewrite (bind_ok (gets fst) _ (g, w) g (g, w)) in H by reflexivity.
  cbn beta in H.
  destruct (Z.leb_spec (len (Pattern.pattern (Game.pattern g))) (Game.index g)) as [Hle|Hlt].
  - right. split; [assumption|].
    destruct (drawn_is_Some (Pattern.pairs (Game.pattern g)) w 0) as (x & Hx & Hxin);
      [now rewrite Hpool|].
    rewrite Hpool in Hxin. exists x. split; [assumption|].
    destruct (sleep_accepts (PrimFloat.sub (Game.speed g) 0.1%float)) eqn:Hs.
    + left. rewrite (bind_ok _ _ _ _ _ (round_block_ok g w x Hx Hs)) in H.
      apply polls_polled in H; [assumption|]. now apply extended_built.
    + right. destruct (round_block_refused g w x Hx Hs) as (w2 & Hr).
      rewrite (bind_raise _ _ _ _ _ Hr) in H. injection H as <- <- <-. now split.
  - left. split; [assumption|].
    rewrite (bind_ok (mret tt) _ (g, w) tt (g, w)) in H by reflexivity.
    now apply polls_polled in H.
Qed.

(** ** The invariant of a session *)

Lemma show_pattern_game g w r g' w' :
  Game.show_pattern (g, w) = (r, (g', w')) -> g' = g.
Proof.
  destruct (sleep_accepts (Game.speed g)) eqn:Hs.
  - rewrite (show_pattern_ok g w Hs). now intros [= _ <- _].
  - destruct (Pattern.pattern (Game.pattern g)) as [|pair rest] eqn:Hp.
    + unfold Game.show_pattern.
      rewrite (bind_ok (gets fst) _ (g, w) g (g, w)) by reflexivity.
      rewrite Hp. cbn [for_]. now intros [= _ <- _].
    + rewrite (show_pattern_refused g w pair rest Hs Hp). now intros [= _ <- _].
Qed.

Lemma init_game pairs w g w' :
  Game.__init__ pairs w = (Ok g, w') ->
  pairs <> [] /\
  exists a b c,
    g = Game.mk pairs 1.00%float (Pattern.mk pairs true 0.06%float [a; b; c]) 0.
Proof.
  unfold Game.__init__, Pattern.__init__. unfold mbind, M_bind, bind.
  destruct pairs as [|p pairs].
  - rewrite generate_empty_pool by reflexivity. discriminate.
  - set (pool := p :: pairs).
    destruct (drawn_is_Some pool w 0) as (a & Ha & _); [discriminate|].
    destruct (drawn_is_Some pool w 1) as (b & Hb & _); [discriminate|].
    destruct (drawn_is_Some pool w 2) as (c & Hc & _); [discriminate|].
    erewrite generate_ok by eassumption. cbn [fst snd].
    unfold mret, M_ret, ret. intros [= <- _]. split; [discriminate|].
    now exists a, b, c.
Qed.

Lemma start_game g w r g' w' :
  built g ->
  Game.start (g, w) = (r, (g', w')) ->
  exists a b c,
    g' = Game.mk (Game.pairs g) (Game.speed g)
           (Pattern.mk (Pattern.pairs (Game.pattern g)) true
                       (Pattern.cycle (Game.pattern g)) [a; b; c])
           (Game.index g).
Proof.
  intros [Hpool Hne Hcycle] H. unfold Game.start in H.
  assert (Hs : sleep_accepts (Pattern.cycle (Game.pattern g)) = true)
    by now rewrite Hcycle.
  erewrite (bind_ok (Game.on_pattern Pattern.cycle_lights)) in H.
  2: { unfold Game.on_pattern. cbn [fst snd].
       rewrite cycle_lights_ok by exact Hs. reflexivity. }
  cbn [fst snd] in H.
  set (w1 := emit _ w) in H.
  rewrite <- Hpool in Hne.
  destruct (drawn_is_Some _ w1 0 Hne) as (a & Ha & _).
  destruct (drawn_is_Some _ w1 1 Hne) as (b & Hb & _).
  destruct (drawn_is_Some _ w1 2 Hne) as (c & Hc & _).
  erewrite (bind_ok (Game.on_pattern Pattern.generate)) in H.
  2: { unfold Game.on_pattern. cbn [fst snd Game.pattern].
       erewrite generate_ok by eassumption. reflexivity. }
  apply show_pattern_game in H. exists a, b, c. exact H.
Qed.

Lemma speed_after_S n :
  speed_after (S n) = PrimFloat.sub (speed_after n) 0.1%float.
Proof. reflexivity. Qed.

Lemma polled_sound g g' : polled g g' -> sound g -> sound g'.
Proof.
  intros [|expected Hi|w1 a b c w2 _] [Hb Hl Hidx Hs].
  - now split.
  - split; [split; apply Hb | exact Hl | | exact Hs].
    apply item_Some_bounds in Hi. simpl. lia.
  - split; [split; apply Hb | simpl; lia | unfold len; simpl; lia | reflexivity].
Qed.

Lemma rtc_polled_sound g g' : rtc polled g g' -> sound g -> sound g'.
Proof. induction 1; eauto using polled_sound. Qed.

Lemma extended_sound g x i :
  sound g -> i = 0 \/ i = Game.index g -> sound (extended g x i).
Proof.
  intros [Hb Hl Hidx Hs] Hi. split.
  - now apply extended_built.
  - simpl. rewrite length_app. lia.
  - unfold len in *. simpl. rewrite length_app. simpl. lia.
  - unfold rounds_won in *. simpl. rewrite length_app. simpl.
    replace (length (Pattern.pattern (Game.pattern g)) + 1 - 3)%nat
      with (S (length (Pattern.pattern (Game.pattern g)) - 3)) by lia.
    rewrite speed_after_S. now rewrite Hs.
Qed.

Lemma run_sound g w r g' w' :
  sound g -> Game.run (g, w) = (r, (g', w')) -> sound g'.
Proof.
  intros Hs H.
  apply run_cases in H as [[_ H]|(_ & x & _ & [H|[-> _]])]; [| | |apply Hs].
  - now apply (rtc_polled_sound g).
  - apply (rtc_polled_sound _ _ H). apply extended_sound; auto.
  - apply extended_sound; auto.
Qed.

Lemma session_sound s : session s -> sound s.1.
Proof.
  induction 1 as [pairs w g w' s Hinit Hstart|s pair level _ IH _|s s' _ IH Hrun].
  - apply init_game in Hinit as (Hne & a & b & c & ->).
    destruct s as [g' w''].
    apply start_game in Hstart as (x & y & z & ->); [|now split].
    split; [now split | simpl; lia | unfold len; simpl; lia | reflexivity].
  - exact IH.
  - destruct s as [g w], s' as [g' w']. now apply (run_sound g w (Ok tt) g' w').
Qed.

(** ** Sessions *)

Lemma session_hold s (levels : list (Z * bool)) :
  session s ->
  Forall (fun pl => exists pair, pair ∈ Game.pairs s.1 /\
                      pl.1 = Button.button_port (Pair.button pair)) levels ->
  session (hold levels s).
Proof.
  intros Hs H. revert s Hs H.
  induction levels as [|[port level] levels IH]; intros s Hs H; [exact Hs|].
  apply Forall_cons in H as [(pair & Hin & Hport) H].
  unfold hold. cbn [fold_left]. apply IH.
  - simpl in Hport. subst port. now apply session_touch.
  - exact H.
Qed.

Lemma session_tick s levels :
  session s ->
  Forall (fun pl => exists pair, pair ∈ Game.pairs s.1 /\
                      pl.1 = Button.button_port (Pair.button pair)) levels ->
  (Demo.tick levels s).1 = Ok tt ->
  session (Demo.tick levels s).2.
Proof.
  intros Hs H Hok. apply (session_run (hold levels s)).
  - now apply session_hold.
  - unfold Demo.tick in *. destruct (Game.run (hold levels s)) as [r s'].
    simpl in *. now subst r.
Qed.

Lemma demo_session_started : session Demo.started.
Proof.
  apply (session_launch Demo.pool Demo.assembled Demo.constructed
           (Game.__init__ Demo.pool Demo.assembled).2);
    vm_compute; reflexivity.
Qed.


Lemma run_pairs g w r g' w' :
  built g -> Game.run (g, w) = (r, (g', w')) -> Game.pairs g' = Game.pairs g.
Proof.
  assert (Hp : forall g1 g2, rtc polled g1 g2 -> Game.pairs g2 = Game.pairs g1).
  { induction 1 as [|g1 g2 g3 [] _ IH]; [reflexivity | exact IH..]. }
  intros Hb H.
  apply run_cases in H as [[_ H]|(_ & x & _ & [H|[-> _]])];
    [exact (Hp _ _ H) | exact (Hp _ _ H) | reflexivity | exact Hb].
Qed.

Lemma demo_levels (s : Game.St) (levels : list (Z * bool)) :
  Game.pairs s.1 = Demo.pool ->
  levels.*1 = [17; 16; 13; 12] ->
  Forall (fun pl : Z * bool => exists pair, pair ∈ Game.pairs s.1 /\
                      pl.1 = Button.button_port (Pair.button pair)) levels.
Proof.
  intros Hp Hl. rewrite Hp.
  destruct levels as [|[a ?] [|[b ?] [|[c ?] [|[d ?] [|]]]]]; try discriminate.
  injection Hl as -> -> -> ->.
  repeat constructor; simpl;
    [exists Demo.yellow | exists Demo.blue | exists Demo.green | exists Demo.red];
    (split; [repeat constructor | reflexivity]).
Qed.

(** A script over the four buttons whose polls all return keeps the
    session going. *)
Lemma fine_session script : forall s,
  session s ->
  Game.pairs s.1 = Demo.pool ->
  Forall (fun levels : list (Z * bool) => levels.*1 = [17; 16; 13; 12]) script ->
  Demo.fine script s = true ->
  session (Demo.after script s) /\ Game.pairs (Demo.after script s).1 = Demo.pool.
Proof.
  induction script as [|levels rest IH]; intros s Hs Hp Hl Hf; [now split|].
  apply Forall_cons in Hl as [Hl Hrest]. cbn [Demo.fine] in Hf.
  unfold Demo.after. cbn [fold_left]. fold (Demo.after rest).
  destruct (Demo.tick levels s) as [[[]| |] [g' w']] eqn:Ht; try discriminate.
  apply IH; [|simpl| |]; try assumption.
  - replace (g', w') with (Demo.tick levels s).2 by now rewrite Ht.
    apply session_tick; [assumption | now apply demo_levels | now rewrite Ht].
  - unfold Demo.tick in Ht. destruct (hold levels s) as [g w] eqn:Hh.
    assert (Hsh : session (g, w)).
    { rewrite <- Hh. apply session_hold; [assumption | now apply demo_levels]. }
    rewrite (run_pairs g w _ g' w' (sound_built _ (session_sound (g, w) Hsh)) Ht).
    change g with (g, w).1. rewrite <- Hh. rewrite <- Hp.
    clear. revert s. induction levels as [|pl levels IH]; intros s; [reflexivity|].
    unfold hold. cbn [fold_left]. fold (hold levels). now rewrite IH.
Qed.

Lemma presses_ports (l : list Pair.t) :
  Forall (fun levels : list (Z * bool) => levels.*1 = [17; 16; 13; 12])
         (Demo.presses l ++ [Demo.all_released]).
Proof.
  apply Forall_app. split; [|now repeat constructor].
  induction l as [|pair l IH]; [constructor|].
  cbn [Demo.presses flat_map app]. now repeat constructor.
Qed.

Lemma round_after s :
  Demo.round s =
  Demo.after (Demo.presses (Pattern.pattern (Game.pattern s.1)) ++ [Demo.all_released]) s.
Proof.
  unfold Demo.round, Demo.repeated, Demo.replay, Demo.after.
  now rewrite fold_left_app.
Qed.

Lemma rounds_session n : forall s,
  session s ->
  Game.pairs s.1 = Demo.pool ->
  Demo.rounds_fine n s = true ->
  session (Demo.rounds n s) /\ Game.pairs (Demo.rounds n s).1 = Demo.pool.
Proof.
  induction n as [|n IH]; intros s Hs Hp Hf; [now split|].
  cbn [Demo.rounds_fine] in Hf. apply andb_prop in Hf as [Hf Hn].
  cbn [Demo.rounds].
  destruct (fine_session _ s Hs Hp (presses_ports _) Hf) as [Hs' Hp'].
  rewrite <- round_after in Hs', Hp'. now apply IH.
Qed.

Lemma demo_session_two_matched : session Demo.two_matched.
Proof.
  apply fine_session.
  - exact demo_session_started.
  - reflexivity.
  - now repeat constructor.
  - vm_compute. reflexivity.
Qed.

(** C4 fails on the code.  In the session below the player has matched two
    of three pairs and then presses the third button, green, together with
    red.  Within one [run] the poll of green advances [index] to 3, the
    length of the pattern, and the poll of red reads [pattern[3]]:
    IndexError. *)
Theorem simultaneous_press_raises_IndexError :
  let s := hold Demo.green_and_red Demo.two_matched in
  let s3 := (Game.watch 0;; Game.watch 1;; Game.watch 2) s in
  session s /\
  Game.index s.1 = 2 /\
  len (Pattern.pattern (Game.pattern s.1)) = 3 /\
  s3.1 = Ok tt /\
  Game.index s3.2.1 = 3 /\
  item (Pattern.pattern (Game.pattern s3.2.1)) (Game.index s3.2.1) = None /\
  (Game.watch_pair Demo.red s3.2).1 = Raise IndexError /\
  (Game.run s).1 = Raise IndexError.
Proof.
  split.
  - apply session_hold; [exact demo_session_two_matched|].
    apply demo_levels; vm_compute; reflexivity.
  - vm_compute. repeat split.
Qed.


Lemma repeated_session s :
  session s ->
  Game.pairs s.1 = Demo.pool ->
  Demo.fine (Demo.presses (Pattern.pattern (Game.pattern s.1))) s = true ->
  session (Demo.repeated s).
Proof.
  intros Hs Hp Hf.
  assert (Hl : Forall (fun levels : list (Z * bool) => levels.*1 = [17; 16; 13; 12])
                 (Demo.presses (Pattern.pattern (Game.pattern s.1)))).
  { pose proof (presses_ports (Pattern.pattern (Game.pattern s.1))) as H.
    now apply Forall_app in H as [H _]. }
  destruct (fine_session _ s Hs Hp Hl Hf) as [Hs' Hp'].
  apply session_hold; [exact Hs'|]. now apply demo_levels.
Qed.

Lemma demo_session_ten_rounds :
  session (Demo.rounds 10 Demo.started) /\
  Game.pairs (Demo.rounds 10 Demo.started).1 = Demo.pool.
Proof.
  apply rounds_session; [exact demo_session_started | reflexivity |].
  vm_compute. reflexivity.
Qed.

(** ** The length of the pattern *)

Lemma bind_assoc {S A B C} (m : M S A) (f : A -> M S B) (h : B -> M S C) s :
  ((m ≫= f) ≫= h) s = (m ≫= (fun a => f a ≫= h)) s.
Proof.
  unfold mbind, M_bind, bind. now destruct (m s) as [[a|e|] s1].
Qed.

Lemma bind_ext {S A B} (m : M S A) (f h : A -> M S B) s :
  (forall a s1, f a s1 = h a s1) -> (m ≫= f) s = (m ≫= h) s.
Proof.
  intros H. unfold mbind, M_bind, bind. destruct (m s) as [[a|e|] s1]; auto.
Qed.

Lemma run_eq s : Game.run s = tick_until 4 s.
Proof.
  unfold Game.run, tick_until, complete_round.
  change (polls 4) with
    ((((mret tt;; Game.watch 0);; Game.watch 1);; Game.watch 2);; Game.watch 3).
  symmetry. etransitivity; [apply bind_assoc|].
  apply bind_ext. intros self s0. apply bind_ext. intros [] s1.
  etransitivity; [apply bind_assoc|].
  etransitivity; [apply bind_assoc|].
  etransitivity; [apply bind_assoc|].
  reflexivity.
Qed.

(** The part before the polls leaves the old pattern, or the old pattern
    with one pair appended. *)
Lemma complete_round_pattern g w r s' :
  built g ->
  complete_round (g, w) = (r, s') ->
  built s'.1 /\
  Pattern.pattern (Game.pattern g) `prefix_of` Pattern.pattern (Game.pattern s'.1).
Proof.
  intros Hb H. pose proof Hb as [Hpool Hne _]. unfold complete_round in H.
  rewrite (bind_ok (gets fst) _ (g, w) g (g, w)) in H by reflexivity.
  cbn beta in H.
  destruct (Z.leb_spec (len (Pattern.pattern (Game.pattern g))) (Game.index g)).
  - destruct (drawn_is_Some (Pattern.pairs (Game.pattern g)) w 0) as (x & Hx & _);
      [now rewrite Hpool|].
    destruct (sleep_accepts (PrimFloat.sub (Game.speed g) 0.1%float)) eqn:Hs.
    + rewrite (round_block_ok g w x Hx Hs) in H. injection H as <- <-.
      split; [now apply extended_built | now exists [x]].
    + destruct (round_block_refused g w x Hx Hs) as (w2 & Hr).
      rewrite Hr in H. injection H as <- <-.
      split; [now apply extended_built | now exists [x]].
  - injection H as <- <-. split; [assumption | reflexivity].
Qed.

(** A poll changes the pattern only by the [reset] it calls: the state the
    poll leaves is then the state that call returned, with the LED of the
    polled pair switched on. *)
Lemma watch_pair_pattern pair g w r s' :
  built g ->
  Game.watch_pair pair (g, w) = (r, s') ->
  Pattern.pattern (Game.pattern s'.1) = Pattern.pattern (Game.pattern g) \/
  exists s1 s2,
    reset_point pair (g, w) = Some s1 /\
    Game.reset s1 = (Ok tt, s2) /\
    s' = (s2.1, emit (lamp pair true) s2.2).
Proof.
  intros Hb. pose proof Hb as [Hpool Hne Hcycle].
  pose proof (released_eq (Pair.button pair) w) as Hr.
  destruct (default false _) in Hr.
  { rewrite (watch_pair_released pair g w Hr). intros [= <- <-]. now left. }
  destruct (cooling_total (Pair.button pair) w) as (c & n & Hc).
  remember (restamped (Pair.button pair) n w) as w1 eqn:Hw1.
  pose proof (status_eq (Pair.led pair) w1) as Hs.
  destruct (default false _) in Hs.
  { rewrite (watch_pair_lit pair g w w1 c Hr Hc Hs). intros [= <- <-]. now left. }
  destruct (exceeds c 0.05%float) eqn:Hgt.
  2: { rewrite (watch_pair_bounce pair g w w1 c Hr Hc Hs Hgt).
       intros [= <- <-]. now left. }
  destruct (item (Pattern.pattern (Game.pattern g)) (Game.index g))
    as [expected|] eqn:Hi.
  2: { rewrite (watch_pair_out_of_range pair g w w1 c Hr Hc Hs Hgt Hi).
       intros [= <- <-]. now left. }
  destruct (Button.is_ (Pair.button pair) (Pair.button expected)) eqn:His.
  { rewrite (watch_pair_match pair g w w1 c Hr Hc Hs Hgt expected Hi His).
    intros [= <- <-]. now left. }
  rewrite <- Hpool in Hne.
  destruct (drawn_is_Some _ w1 0 Hne) as (x & Hx & _).
  destruct (drawn_is_Some _ w1 1 Hne) as (y & Hy & _).
  destruct (drawn_is_Some _ w1 2 Hne) as (z & Hz & _).
  assert (Hsl : sleep_accepts (Pattern.cycle (Game.pattern g)) = true)
    by now rewrite Hcycle.
  pose proof (reset_ok g w1 x y z Hsl Hx Hy Hz) as Hreset.
  rewrite (watch_pair_mismatch pair g w w1 c Hr Hc Hs Hgt expected Hi _ _ His Hreset).
  intros [= <- <-]. right. exists (g, w1). eexists.
  split; [|split; [exact Hreset | reflexivity]].
  unfold reset_point. cbn [fst snd]. rewrite Hr, Hc, Hs.
  cbn [String.eqb Ascii.eqb Bool.eqb andb]. rewrite Hgt, Hi, His. reflexivity.
Qed.

Lemma watch_pattern i g w r s' :
  built g ->
  Game.watch (Z.of_nat i) (g, w) = (r, s') ->
  Pattern.pattern (Game.pattern s'.1) = Pattern.pattern (Game.pattern g) \/
  exists pair s1 s2,
    Game.pairs g !! i = Some pair /\
    reset_point pair (g, w) = Some s1 /\
    Game.reset s1 = (Ok tt, s2) /\
    Pattern.pattern (Game.pattern s'.1) = Pattern.pattern (Game.pattern s2.1).
Proof.
  intros Hb. unfold Game.watch.
  rewrite (bind_ok (gets fst) _ (g, w) g (g, w)) by reflexivity.
  unfold mbind, M_bind, bind, getitem. rewrite item_nat.
  destruct (Game.pairs g !! i) as [pair|] eqn:Hi.
  - unfold ret. intros H.
    destruct (watch_pair_pattern pair g w r s' Hb H) as [Hsame|(s1 & s2 & Hp & Hr & ->)];
      [now left|].
    right. exists pair, s1, s2. repeat split; assumption.
  - unfold raise. intros [= <- <-]. now left.
Qed.

(** The polls of an iteration change the pattern only by a [reset] that one
    of them calls, in the state in which that poll was entered. *)
Lemma polls_pattern n : forall s r s',
  built s.1 ->
  polls n s = (r, s') ->
  built s'.1 /\
  (Pattern.pattern (Game.pattern s'.1) = Pattern.pattern (Game.pattern s.1) \/
   exists i pair si s1 s2,
     (i < n)%nat /\
     polls i s = (Ok tt, si) /\
     Game.pairs si.1 !! i = Some pair /\
     reset_point pair si = Some s1 /\
     Game.reset s1 = (Ok tt, s2) /\
     Pattern.pattern (Game.pattern s'.1) = Pattern.pattern (Game.pattern s2.1)).
Proof.
  induction n as [|n IH]; intros s r s' Hb H.
  - injection H as <- <-. split; [assumption | now left].
  - cbn [polls] in H.
    destruct (bind_cases _ _ _ _ _ H) as [([] & sn & Hn & Hw)|[Hn _]].
    + destruct (IH _ _ _ Hb Hn) as [Hbn Hpn].
      destruct sn as [gn wn]. cbn [fst] in *.
      split; [apply (polled_built gn); [|assumption];
              destruct s' as [g' w']; exact (watch_polled _ _ _ _ _ _ Hbn Hw)|].
      destruct (watch_pattern n gn wn r s' Hbn Hw)
        as [Hsame|(pair & s1 & s2 & Hp & Hrp & Hr & Hpat)].
      * rewrite Hsame. destruct Hpn as [Hpn|(i & pair & si & s1 & s2 & Hi & Hrest)];
          [now left|].
        right. exists i, pair, si, s1, s2. split; [lia | exact Hrest].
      * right. exists n, pair, (gn, wn), s1, s2.
        repeat split; try assumption. lia.
    + destruct (IH _ _ _ Hb Hn) as [Hbn Hpn]. split; [assumption|].
      destruct Hpn as [Hpn|(i & pair & si & s1 & s2 & Hi & Hrest)]; [now left|].
      right. exists i, pair, si, s1, s2. split; [lia | exact Hrest].
Qed.

(** An iteration of the loop, however it ends, leaves the old pattern,
    possibly with one pair appended, unless one of its polls called
    [reset]: the pattern is then the one that call returned. *)
Lemma run_pattern s r s' :
  built s.1 ->
  Game.run s = (r, s') ->
  Pattern.pattern (Game.pattern s.1) `prefix_of` Pattern.pattern (Game.pattern s'.1) \/
  exists i pair si s1 s2,
    (i < 4)%nat /\
    tick_until i s = (Ok tt, si) /\
    Game.pairs si.1 !! i = Some pair /\
    reset_point pair si = Some s1 /\
    Game.reset s1 = (Ok tt, s2) /\
    Pattern.pattern (Game.pattern s'.1) = Pattern.pattern (Game.pattern s2.1).
Proof.
  intros Hb H. rewrite run_eq in H. unfold tick_until in H.
  destruct s as [g w]. cbn [fst] in *.
  destruct (bind_cases _ _ _ _ _ H) as [([] & s0 & H0 & Hp)|[H0 _]].
  - destruct (complete_round_pattern g w _ s0 Hb H0) as [Hb0 Hpre].
    destruct (polls_pattern 4 s0 r s' Hb0 Hp)
      as [_ [Hsame|(i & pair & si & s1 & s2 & Hi & Hpi & Hrest)]].
    + left. now rewrite Hsame.
    + right. exists i, pair, si, s1, s2. split; [exact Hi|].
      split; [|exact Hrest].
      unfold tick_until. now rewrite (bind_ok _ _ _ _ _ H0).
  - left. apply (complete_round_pattern g w _ s' Hb H0).
Qed.

(** C7.  Over a non-empty pool [generate] returns with three pairs and
    [add] with one pair more; [reset] of a built game returns with three
    pairs, the ones its [generate] drew; in every state of a session the
    pattern has at least three pairs; and an iteration of the loop, however
    it ends, leaves the old pattern, possibly with one pair appended,
    unless one of its four polls reached its call of [reset]: the pattern
    is then the one that call returned.  A single poll changes the pattern
    by nothing but that call. *)
Theorem pattern_length_invariant :
  (forall p w, Pattern.pairs p <> [] ->
     (Pattern.generate (p, w)).1 = Ok true /\
     length (Pattern.pattern (Pattern.generate (p, w)).2.1) = 3%nat) /\
  (forall p w, Pattern.pairs p <> [] ->
     (Pattern.add (p, w)).1 = Ok true /\
     length (Pattern.pattern (Pattern.add (p, w)).2.1) =
       S (length (Pattern.pattern p))) /\
  (forall g w, built g ->
     (Game.reset (g, w)).1 = Ok tt /\
     length (Pattern.pattern (Game.pattern (Game.reset (g, w)).2.1)) = 3%nat /\
     Pattern.pattern (Game.pattern (Game.reset (g, w)).2.1) =
       Pattern.pattern (Pattern.generate (Game.pattern g, w)).2.1) /\
  (forall s, session s ->
     (3 <= length (Pattern.pattern (Game.pattern s.1)))%nat) /\
  (forall s r s', session s -> Game.run s = (r, s') ->
     (3 <= length (Pattern.pattern (Game.pattern s'.1)))%nat /\
     (Pattern.pattern (Game.pattern s.1) `prefix_of`
        Pattern.pattern (Game.pattern s'.1) \/
      exists i pair si s1 s2,
        (i < 4)%nat /\
        tick_until i s = (Ok tt, si) /\
        Game.pairs si.1 !! i = Some pair /\
        reset_point pair si = Some s1 /\
        Game.reset s1 = (Ok tt, s2) /\
        Pattern.pattern (Game.pattern s'.1) = Pattern.pattern (Game.pattern s2.1))) /\
  (forall pair g w r s', built g -> Game.watch_pair pair (g, w) = (r, s') ->
     Pattern.pattern (Game.pattern s'.1) = Pattern.pattern (Game.pattern g) \/
     exists s1 s2,
       reset_point pair (g, w) = Some s1 /\
       Game.reset s1 = (Ok tt, s2) /\
       s' = (s2.1, emit (lamp pair true) s2.2)).
Proof.
  repeat apply conj.
  - intros p w Hne.
    destruct (drawn_is_Some _ w 0 Hne) as (a & Ha & _).
    destruct (drawn_is_Some _ w 1 Hne) as (b & Hb & _).
    destruct (drawn_is_Some _ w 2 Hne) as (c & Hc & _).
    rewrite (generate_ok p w a b c Ha Hb Hc). now split.
  - intros p w Hne.
    destruct (add_appends_one_length p w Hne) as [H1 H2]. now split.
  - intros g w [Hpool Hne Hcycle]. rewrite <- Hpool in Hne.
    destruct (drawn_is_Some _ w 0 Hne) as (a & Ha & _).
    destruct (drawn_is_Some _ w 1 Hne) as (b & Hb & _).
    destruct (drawn_is_Some _ w 2 Hne) as (c & Hc & _).
    rewrite (reset_ok g w a b c) by (try eassumption; now rewrite Hcycle).
    rewrite (generate_ok (Game.pattern g) w a b c Ha Hb Hc).
    repeat split.
  - intros s Hs. apply (session_sound s Hs).
  - intros [g w] r [g' w'] Hs Hrun. pose proof (session_sound _ Hs) as Hsound.
    split; [apply (run_sound g w r g' w' Hsound Hrun)|].
    apply (run_pattern (g, w) r (g', w')); [apply Hsound | exact Hrun].
  - exact watch_pair_pattern.
Qed.

(** In the session of the examples the loop has just been entered and the
    player presses the blue button, the pattern expecting the yellow one:
    the poll of [pairs[1]] reaches its call of [reset], and the pattern
    the iteration leaves is the one that call returned, not an extension of
    the old one. *)
Example demo_reset_in_run :
  let s := Demo.pressing 16 in
  Pattern.pattern (Game.pattern s.1) = [Demo.yellow; Demo.blue; Demo.green] /\
  (tick_until 1 s).1 = Ok tt /\
  match reset_point Demo.blue (tick_until 1 s).2 with
  | Some s1 =>
      (Game.reset s1).1 = Ok tt /\
      Pattern.pattern (Game.pattern (Game.reset s1).2.1) =
        [Demo.red; Demo.yellow; Demo.blue] /\
      Pattern.pattern (Game.pattern (Game.run s).2.1) =
        Pattern.pattern (Game.pattern (Game.reset s1).2.1)
  | None => False
  end.
Proof. vm_compute. repeat split. Qed.

Lemma pattern_length_invariant_witness :
  (3 <= length (Pattern.pattern (Game.pattern (Demo.rounds 10 Demo.started).1)))%nat /\
  (Game.reset (Demo.started.1, Demo.started.2)).1 = Ok tt.
Proof.
  destruct pattern_length_invariant as (_ & _ & Hreset & Hsession & _ & _).
  split.
  - exact (Hsession _ (proj1 demo_session_ten_rounds)).
  - refine (proj1 (Hreset Demo.started.1 Demo.started.2 _)).
    split; vm_compute; [reflexivity | discriminate | reflexivity].
Defined.

(** ** Speed *)

(** C9 as amended.  The constructor sets [speed] to 1.00, and in every
    state of a session [speed] is 1.00 with 0.1 subtracted once per round
    completed since the last reset, each subtraction rounded to double
    precision.  No bound stops the descent: after 10 rounds the value is
    still positive, 1.25 * 2^-53, and after the 11th it is negative.  The
    session of the examples wins its first ten rounds in a row. *)
Theorem speed_follows_rounds :
  (forall pairs w g w', Game.__init__ pairs w = (Ok g, w') ->
     Game.speed g = 1.00%float /\ rounds_won g = 0%nat) /\
  (forall s, session s -> Game.speed s.1 = speed_after (rounds_won s.1)) /\
  (forall n, speed_after (S n) = PrimFloat.sub (speed_after n) 0.1%float) /\
  Forall (fun n => PrimFloat.ltb 0%float (speed_after n) = true) (seq 0 11) /\
  speed_after 10 = 0x1.4p-53%float /\
  PrimFloat.ltb (speed_after 11) 0%float = true /\
  Forall (fun n => rounds_won (Demo.rounds n Demo.started).1 = n /\
                   Game.speed (Demo.rounds n Demo.started).1 = speed_after n)
         (seq 0 11).
Proof.
  repeat apply conj.
  - intros pairs w g w' H. apply init_game in H as (_ & a & b & c & ->).
    now split.
  - intros s Hs. apply (session_sound s Hs).
  - exact speed_after_S.
  - vm_compute. repeat constructor.
  - vm_compute. reflexivity.
  - vm_compute. reflexivity.
  - cbn [seq]. repeat (constructor; [vm_compute; split; reflexivity|]).
    constructor.
Qed.

Lemma speed_follows_rounds_witness :
  Game.speed (Demo.rounds 10 Demo.started).1 =
  speed_after (rounds_won (Demo.rounds 10 Demo.started).1).
Proof.
  destruct speed_follows_rounds as (_ & Hsession & _).
  exact (Hsession _ (proj1 demo_session_ten_rounds)).
Defined.

(** C9 as stated fails: ten rounds won in a row, without a reset, leave
    [speed] above zero, and already after three rounds [speed] is not
    [1.00 - 3 * 0.10]. *)
Lemma ten_rounds_leave_speed_positive :
  let s := Demo.rounds 10 Demo.started in
  session s /\
  Demo.rounds_fine 10 Demo.started = true /\
  length (Pattern.pattern (Game.pattern s.1)) = 13%nat /\
  Game.speed s.1 = 0x1.4p-53%float /\
  PrimFloat.leb (Game.speed s.1) 0%float = false /\
  PrimFloat.eqb (Game.speed s.1)
    (PrimFloat.sub 1.00%float (PrimFloat.mul 10%float 0.10%float)) = false /\
  PrimFloat.eqb (Game.speed (Demo.rounds 3 Demo.started).1)
    (PrimFloat.sub 1.00%float (PrimFloat.mul 3%float 0.10%float)) = false.
Proof.
  split; [apply demo_session_ten_rounds|].
  vm_compute. repeat split.
Qed.

(** ** The eleventh round *)

(** C1 fails on the code.  In the session of the examples ten rounds have
    been won and [speed] is about 1.4e-16; the player repeats the thirteen
    pairs, all buttons are released, and the next [run] subtracts 0.1,
    extends the pattern, and is then stopped by [time.sleep] refusing the
    negative duration: ValueError, which nothing catches, with [index]
    still at the length it had and the first LED of the pattern left
    on. *)
Theorem round_completion_fails_below_zero :
  let s := Demo.repeated (Demo.rounds 10 Demo.started) in
  session s /\
  Game.index s.1 = len (Pattern.pattern (Game.pattern s.1)) /\
  Forall (idle s.2) Demo.pool /\
  (Game.run s).1 = Raise ValueError /\
  Game.index (Game.run s).2.1 = 13 /\
  Game.index (Game.run s).2.1 <> 0 /\
  PrimFloat.ltb (Game.speed (Game.run s).2.1) 0%float = true /\
  length (Pattern.pattern (Game.pattern (Game.run s).2.1)) = 14%nat /\
  head (Pattern.pattern (Game.pattern (Game.run s).2.1)) = Some Demo.yellow /\
  (LED.status (Pair.led Demo.yellow) (Game.run s).2.2).1 = Ok "On"%string.
Proof.
  split.
  - apply repeated_session; [apply demo_session_ten_rounds.. |].
    vm_compute. reflexivity.
  - vm_compute. repeat split; try discriminate. repeat constructor.
Qed.

(** * Further properties of the code *)

(** ** LEDs and buttons *)

(** X1.  [toggle] always returns, and [status] then reads what was set:
    'On' for the directive 'On', 'Off' for every other directive. *)
Theorem toggle_then_status (led : LED.t) (directive : string) (w : World) :
  (LED.toggle led directive w).1 = Ok tt /\
  (LED.status led (LED.toggle led directive w).2).1 =
    Ok (if String.eqb directive "On" then "On" else "Off")%string.
Proof.
  unfold LED.toggle. rewrite status_eq.
  destruct (String.eqb directive "On"); simpl;
    rewrite lookup_insert_eq; split; reflexivity.
Qed.

(** X2.  Toggling one LED leaves the reading of an LED on another channel
    as it was. *)
Theorem toggle_leaves_other_led (led other : LED.t) (directive : string) (w : World) :
  LED.gpio_port led <> LED.gpio_port other ->
  (LED.status other (LED.toggle led directive w).2).1 = (LED.status other w).1.
Proof.
  intros Hne. unfold LED.toggle. rewrite !status_eq.
  destruct (String.eqb directive "On"); simpl;
    now rewrite lookup_insert_ne.
Qed.

Lemma toggle_leaves_other_led_witness :
  (LED.status (Pair.led Demo.blue)
     (LED.toggle (Pair.led Demo.yellow) "On" Demo.started.2).2).1 =
  (LED.status (Pair.led Demo.blue) Demo.started.2).1.
Proof.
  apply (toggle_leaves_other_led (Pair.led Demo.yellow) (Pair.led Demo.blue)).
  vm_compute. discriminate.
Defined.

(** X3.  [Button(port)] returns a button on that port whose first
    [cooling()] is the sentinel 10 and leaves the reading of the clock as
    its stamp; the constructor reads neither the channel nor the clock; and
    a button built next is another object. *)
Theorem new_button_is_uncooled (port port' : Z) (w : World) :
  let b := Button.mk (objects w) port in
  let w1 := (Button.__init__ port w).2 in
  (Button.__init__ port w).1 = Ok b /\
  ticks w1 = ticks w /\
  (Button.cooling b w1).1 = Ok (Int 10) /\
  stamps (Button.cooling b w1).2 !! Button.id b = Some (clock w (ticks w)) /\
  (exists b', (Button.__init__ port' w1).1 = Ok b' /\ Button.is_ b b' = false).
Proof.
  intros b w1. subst b w1.
  unfold Button.__init__, GPIO.setup_in_pull_up. unfold_m. simpl.
  repeat split.
  - rewrite cooling_first; [reflexivity|]. simpl. apply lookup_delete_eq.
  - rewrite cooling_first; [|simpl; apply lookup_delete_eq]. simpl.
    rewrite lookup_insert_eq. now rewrite Nat.sub_0_r.
  - eexists. split; [reflexivity|]. unfold Button.is_. simpl.
    apply Nat.eqb_neq. lia.
Qed.

(** X4.  [cooling()] on one button leaves the stamp of every other button,
    the levels of all channels, the draws and the trace as they were. *)
Theorem cooling_leaves_other_buttons (b other : Button.t) (w : World) :
  Button.id b <> Button.id other ->
  let w1 := (Button.cooling b w).2 in
  stamps w1 !! Button.id other = stamps w !! Button.id other /\
  pins w1 = pins w /\ draws w1 = draws w /\ trace w1 = trace w.
Proof.
  intros Hne w1. subst w1.
  destruct (cooling_total b w) as (c & n & ->). simpl.
  repeat split. now apply lookup_insert_ne.
Qed.

Lemma cooling_leaves_other_buttons_witness :
  stamps (Button.cooling (Pair.button Demo.yellow) Demo.started.2).2
    !! Button.id (Pair.button Demo.blue) =
  stamps Demo.started.2 !! Button.id (Pair.button Demo.blue).
Proof.
  apply (cooling_leaves_other_buttons (Pair.button Demo.yellow) (Pair.button Demo.blue)).
  vm_compute. discriminate.
Defined.

(** ** Showing the pattern *)

Lemma shows_leave_off (l : list Pair.t) speed : forall w port,
  pins w !! port = Some false \/
  (exists q, q ∈ l /\ port = LED.gpio_port (Pair.led q)) ->
  pins (emit (flat_map (show speed) l) w) !! port = Some false.
Proof.
  induction l as [|q l IH]; intros w port H.
  - destruct H as [H|(q & Hq & _)]; [exact H | inversion Hq].
  - cbn [flat_map]. rewrite emit_app. apply IH.
    destruct (decide (port = LED.gpio_port (Pair.led q))) as [->|Hne].
    + left. simpl. apply lookup_insert_eq.
    + assert (Hsame : pins (emit (show speed q) w) !! port = pins w !! port).
      { apply emit_pins_other. unfold quiet, show.
        repeat constructor; congruence. }
      destruct H as [H|(q' & Hq' & Hport)].
      * left. now rewrite Hsame.
      * apply elem_of_cons in Hq' as [->|Hq']; [contradiction|].
        right. now exists q'.
Qed.

(** X5.  With a speed that [time.sleep] accepts, [show_pattern] returns;
    the game object is what it was; every LED of the pattern reads 'Off'
    afterwards; the trace grows by on, pause of [speed], off, pause of 0.2
    for each pair in order; no button is stamped, no clock read, nothing
    drawn. *)
Theorem show_pattern_leaves_leds_off (g : Game.t) (w : World) :
  sleep_accepts (Game.speed g) = true ->
  let r := Game.show_pattern (g, w) in
  r.1 = Ok tt /\
  r.2.1 = g /\
  (forall pair, pair ∈ Pattern.pattern (Game.pattern g) ->
     (LED.status (Pair.led pair) r.2.2).1 = Ok "Off"%string) /\
  trace r.2.2 =
    trace w ++ flat_map (show (Game.speed g)) (Pattern.pattern (Game.pattern g)) /\
  stamps r.2.2 = stamps w /\ ticks r.2.2 = ticks w /\ draws r.2.2 = draws w.
Proof.
  intros Hs r. subst r. rewrite (show_pattern_ok g w Hs). cbn [fst snd].
  destruct (emit_frame (flat_map (show (Game.speed g))
                          (Pattern.pattern (Game.pattern g))) w)
    as (Hst & _ & _ & Hti & _ & Hdr & Htr).
  repeat split; try assumption.
  intros pair Hin. rewrite status_eq. cbn [fst].
  rewrite (shows_leave_off _ _ w (LED.gpio_port (Pair.led pair))); [reflexivity|].
  right. now exists pair.
Qed.

Lemma show_pattern_leaves_leds_off_witness :
  (Game.show_pattern (Demo.started.1, Demo.started.2)).1 = Ok tt /\
  (Game.show_pattern (Demo.started.1, Demo.started.2)).2.1 = Demo.started.1.
Proof.
  destruct (show_pattern_leaves_leds_off Demo.started.1 Demo.started.2)
    as (Hr & Hg & _); [vm_compute; reflexivity|].
  split; [exact Hr | exact Hg].
Defined.

(** X6.  With a speed that [time.sleep] refuses, [show_pattern] of a
    non-empty pattern raises ValueError at its first pause: the game object
    is what it was, the first LED of the pattern is left reading 'On', and
    the trace has grown by that one output only.  An empty pattern is
    shown without any pause, so the call returns whatever the speed. *)
Theorem show_pattern_refused_leaves_led_on (g : Game.t) (w : World) :
  (Pattern.pattern (Game.pattern g) = [] ->
   Game.show_pattern (g, w) = (Ok tt, (g, w))) /\
  (forall pair rest,
     sleep_accepts (Game.speed g) = false ->
     Pattern.pattern (Game.pattern g) = pair :: rest ->
     let r := Game.show_pattern (g, w) in
     r.1 = Raise ValueError /\
     r.2.1 = g /\
     (LED.status (Pair.led pair) r.2.2).1 = Ok "On"%string /\
     trace r.2.2 = trace w ++ [Output (LED.gpio_port (Pair.led pair)) true]).
Proof.
  split.
  - intros Hp. unfold Game.show_pattern.
    rewrite (bind_ok (gets fst) _ (g, w) g (g, w)) by reflexivity.
    now rewrite Hp.
  - intros pair rest Hs Hp r. subst r.
    rewrite (show_pattern_refused g w pair rest Hs Hp). cbn [fst snd].
    repeat split. rewrite status_eq. simpl. now rewrite lookup_insert_eq.
Qed.

Lemma show_pattern_refused_leaves_led_on_witness :
  let s := Demo.repeated (Demo.rounds 10 Demo.started) in
  let g := extended s.1 Demo.yellow (Game.index s.1) in
  (Game.show_pattern (g, s.2)).1 = Raise ValueError.
Proof.
  intros s g.
  destruct (show_pattern_refused_leaves_led_on g s.2) as [_ H].
  refine (proj1 (H Demo.yellow _ _ _)); [vm_compute; reflexivity|].
  vm_compute. reflexivity.
Defined.

(** ** Starting and starting over *)

Lemma start_ok g w a b c :
  sleep_accepts (Pattern.cycle (Game.pattern g)) = true ->
  sleep_accepts (Game.speed g) = true ->
  drawn (Pattern.pairs (Game.pattern g)) w 0 = Some a ->
  drawn (Pattern.pairs (Game.pattern g)) w 1 = Some b ->
  drawn (Pattern.pairs (Game.pattern g)) w 2 = Some c ->
  Game.start (g, w) =
  (Ok tt,
   (Game.mk (Game.pairs g) (Game.speed g)
            (Pattern.mk (Pattern.pairs (Game.pattern g)) true
                        (Pattern.cycle (Game.pattern g)) [a; b; c])
            (Game.index g),
    emit (flat_map (show (Game.speed g)) [a; b; c])
      (with_draws (3 + draws w)
         (emit (concat (replicate 10
                  (sweep_events (Pattern.cycle (Game.pattern g))
                                (Pattern.pairs (Game.pattern g))))) w)))).
Proof.
  intros Hc Hs Ha Hb Hcc. unfold Game.start.
  erewrite (bind_ok (Game.on_pattern Pattern.cycle_lights)).
  2: { unfold Game.on_pattern. cbn [fst snd].
       rewrite cycle_lights_ok by exact Hc. reflexivity. }
  cbn [fst snd].
  erewrite (bind_ok (Game.on_pattern Pattern.generate)).
  2: { unfold Game.on_pattern. cbn [fst snd Game.pattern].
       erewrite generate_ok; [reflexivity|rewrite drawn_emit; eassumption..]. }
  cbn [fst snd Game.pairs Game.speed Game.index Pattern.pairs Pattern.cycle].
  rewrite show_pattern_ok by exact Hs. rewrite emit_draws. reflexivity.
Qed.

(** X7.  [start()] on a built game whose speed [time.sleep] accepts
    returns; it replaces the pattern by three pairs drawn from the pool and
    leaves every LED of it reading 'Off'; unlike [reset()] it keeps [speed]
    and [index] as they are; it takes three draws and reads neither the
    clock nor a stamp. *)
Theorem start_keeps_speed_and_index (g : Game.t) (w : World) :
  built g ->
  sleep_accepts (Game.speed g) = true ->
  let r := Game.start (g, w) in
  r.1 = Ok tt /\
  Game.pairs r.2.1 = Game.pairs g /\
  Game.speed r.2.1 = Game.speed g /\
  Game.index r.2.1 = Game.index g /\
  length (Pattern.pattern (Game.pattern r.2.1)) = 3%nat /\
  (forall pair, pair ∈ Pattern.pattern (Game.pattern r.2.1) ->
     pair ∈ Game.pairs g /\
     (LED.status (Pair.led pair) r.2.2).1 = Ok "Off"%string) /\
  draws r.2.2 = (3 + draws w)%nat /\
  ticks r.2.2 = ticks w /\ stamps r.2.2 = stamps w.
Proof.
  intros [Hpool Hne Hcycle] Hs r. subst r. rewrite <- Hpool in *.
  destruct (drawn_is_Some _ w 0 Hne) as (a & Ha & Hain).
  destruct (drawn_is_Some _ w 1 Hne) as (b & Hb & Hbin).
  destruct (drawn_is_Some _ w 2 Hne) as (c & Hc & Hcin).
  rewrite (start_ok g w a b c) by (try assumption; now rewrite Hcycle).
  cbn [fst snd Game.pairs Game.speed Game.index Game.pattern Pattern.pattern].
  set (w2 := with_draws _ _).
  destruct (emit_frame (flat_map (show (Game.speed g)) [a; b; c]) w2)
    as (Hst & _ & _ & Hti & _ & Hdr & _).
  rewrite Hst, Hti, Hdr. subst w2. cbn [stamps ticks draws with_draws].
  destruct (emit_frame (concat (replicate 10
              (sweep_events (Pattern.cycle (Game.pattern g))
                            (Pattern.pairs (Game.pattern g))))) w)
    as (Hst' & _ & _ & Hti' & _ & _ & _).
  repeat apply conj; try reflexivity; try assumption; try (symmetry; exact Hpool).
  intros pair H. split.
  - apply elem_of_cons in H as [->|H]; [assumption|].
    apply elem_of_cons in H as [->|H]; [assumption|].
    apply list_elem_of_singleton in H as ->. assumption.
  - rewrite status_eq. cbn [fst].
    rewrite (shows_leave_off [a; b; c] _ _ (LED.gpio_port (Pair.led pair)));
      [reflexivity|]. right. now exists pair.
Qed.

Lemma start_keeps_speed_and_index_witness :
  (Game.start (Demo.constructed, Demo.assembled)).1 = Ok tt /\
  Game.speed (Game.start (Demo.constructed, Demo.assembled)).2.1 = 1.00%float.
Proof.
  destruct (start_keeps_speed_and_index Demo.constructed Demo.assembled)
    as (Hr & _ & Hs & _).
  - split; [reflexivity | discriminate | reflexivity].
  - reflexivity.
  - split; [exact Hr | exact Hs].
Defined.

(** X8.  [reset()] on a built game returns with [index] 0, [speed] 1.00,
    the pool untouched and a pattern of three pairs of the pool whose LEDs
    all read 'Off'; it takes three draws, reads no clock and stamps no
    button: nothing is polled while the lights cycle and the pattern is
    shown. *)
Theorem reset_polls_nothing (g : Game.t) (w : World) :
  built g ->
  let r := Game.reset (g, w) in
  r.1 = Ok tt /\
  Game.pairs r.2.1 = Game.pairs g /\
  Game.index r.2.1 = 0 /\
  Game.speed r.2.1 = 1.00%float /\
  length (Pattern.pattern (Game.pattern r.2.1)) = 3%nat /\
  (forall pair, pair ∈ Pattern.pattern (Game.pattern r.2.1) ->
     pair ∈ Game.pairs g /\
     (LED.status (Pair.led pair) r.2.2).1 = Ok "Off"%string) /\
  draws r.2.2 = (3 + draws w)%nat /\
  ticks r.2.2 = ticks w /\ stamps r.2.2 = stamps w.
Proof.
  intros [Hpool Hne Hcycle] r. subst r. rewrite <- Hpool in *.
  destruct (drawn_is_Some _ w 0 Hne) as (a & Ha & Hain).
  destruct (drawn_is_Some _ w 1 Hne) as (b & Hb & Hbin).
  destruct (drawn_is_Some _ w 2 Hne) as (c & Hc & Hcin).
  rewrite (reset_ok g w a b c) by (try assumption; now rewrite Hcycle).
  cbn [fst snd fresh_game Game.pairs Game.speed Game.index Game.pattern
       Pattern.pattern].
  unfold fresh_world. set (w2 := emit (concat _) _).
  destruct (emit_frame (flat_map (show 1.00%float) [a; b; c]) w2)
    as (Hst & _ & _ & Hti & _ & Hdr & _).
  rewrite Hst, Hti, Hdr. subst w2.
  destruct (emit_frame (concat (replicate 10
              (sweep_events (Pattern.cycle (Game.pattern g))
                            (Pattern.pairs (Game.pattern g)))))
              (with_draws (3 + draws w) w))
    as (Hst' & _ & _ & Hti' & _ & Hdr' & _).
  rewrite Hst', Hti', Hdr'. cbn [stamps ticks draws with_draws].
  repeat apply conj; try reflexivity; try (symmetry; exact Hpool).
  intros pair H. split.
  - apply elem_of_cons in H as [->|H]; [assumption|].
    apply elem_of_cons in H as [->|H]; [assumption|].
    apply list_elem_of_singleton in H as ->. assumption.
  - rewrite status_eq. cbn [fst].
    rewrite (shows_leave_off [a; b; c] _ _ (LED.gpio_port (Pair.led pair)));
      [reflexivity|]. right. now exists pair.
Qed.

Lemma reset_polls_nothing_witness :
  (Game.reset (Demo.started.1, Demo.started.2)).1 = Ok tt /\
  ticks (Game.reset (Demo.started.1, Demo.started.2)).2.2 = ticks Demo.started.2.
Proof.
  destruct (reset_polls_nothing Demo.started.1 Demo.started.2)
    as (Hr & _ & _ & _ & _ & _ & _ & Ht & _).
  - split; vm_compute; [reflexivity | discriminate | reflexivity].
  - split; [exact Hr | exact Ht].
Defined.

(** ** Polling a pair *)

Lemma pressed_after_lamp pair w w1 c level :
  LED.gpio_port (Pair.led pair) <> Button.button_port (Pair.button pair) ->
  Button.released (Pair.button pair) w = (Ok false, w) ->
  Button.cooling (Pair.button pair) w = (Ok c, w1) ->
  let w2 := emit (lamp pair level) w1 in
  Button.released (Pair.button pair) w2 = (Ok false, w2) /\
  LED.status (Pair.led pair) w2 =
    (Ok (if level then "On" else "Off")%string, w2).
Proof.
  intros Hne Hp Hc w2.
  destruct (cooling_total (Pair.button pair) w) as (c' & n & E).
  rewrite E in Hc. injection Hc as _ <-.
  rewrite released_eq in Hp. injection Hp as Hp.
  split.
  - rewrite released_eq. subst w2. rewrite lamp_pins by exact Hne.
    rewrite restamped_pins. now rewrite Hp.
  - rewrite status_eq. subst w2. simpl. rewrite lookup_insert_eq.
    now destruct level.
Qed.



(** X10.  A press that comes too soon is lost.  When the button reads
    pressed and the LED off but the cooling reading is not above 0.05, the
    poll returns, leaves the game as it was and lights the LED; and for as
    long as the button stays held the next poll finds the LED on and leaves
    the game as it was again. *)
Theorem early_press_is_lost
  (pair : Pair.t) (g : Game.t) (w w1 : World) (c : number) :
  LED.gpio_port (Pair.led pair) <> Button.button_port (Pair.button pair) ->
  Button.released (Pair.button pair) w = (Ok false, w) ->
  LED.status (Pair.led pair) w = (Ok "Off"%string, w) ->
  Button.cooling (Pair.button pair) w = (Ok c, w1) ->
  exceeds c 0.05%float = false ->
  let r1 := Game.watch_pair pair (g, w) in
  let r2 := Game.watch_pair pair r1.2 in
  r1.1 = Ok tt /\ r1.2.1 = g /\
  (LED.status (Pair.led pair) r1.2.2).1 = Ok "On"%string /\
  r2.1 = Ok tt /\ r2.2.1 = g.
Proof.
  intros Hne Hp Hoff Hc Hgt r1 r2. subst r2 r1.
  rewrite (watch_pair_bounce pair g w w1 c Hp Hc
             (status_after_cooling _ _ _ _ _ _ Hc Hoff) Hgt).
  cbn [fst snd].
  destruct (pressed_after_lamp pair w w1 c true Hne Hp Hc) as [Hp2 Hon].
  destruct (cooling_total (Pair.button pair) (emit (lamp pair true) w1))
    as (c2 & n2 & Hc2).
  rewrite (watch_pair_lit pair g _ _ c2 Hp2 Hc2
             (status_after_cooling _ _ _ _ _ _ Hc2 Hon)).
  rewrite Hon. repeat split.
Qed.

(** X11.  On a built game [watch_pair] either returns or raises
    IndexError, and it raises only on a pressed, cooled button with its
    LED off when [index] is outside the pattern; the game object is then
    left as it was. *)
Theorem watch_pair_raises_only_out_of_range
  (pair : Pair.t) (g : Game.t) (w : World) :
  built g ->
  let r := Game.watch_pair pair (g, w) in
  r.1 = Ok tt \/
  (r.1 = Raise IndexError /\
   item (Pattern.pattern (Game.pattern g)) (Game.index g) = None /\
   Button.released (Pair.button pair) w = (Ok false, w) /\
   LED.status (Pair.led pair) w = (Ok "Off"%string, w) /\
   exceeds (match (Button.cooling (Pair.button pair) w).1 with
            | Ok c => c
            | _ => Int 0
            end) 0.05%float = true /\
   r.2.1 = g).
Proof.
  intros Hb r. subst r.
  destruct (item (Pattern.pattern (Game.pattern g)) (Game.index g))
    as [expected|] eqn:Hi.
  { left. apply watch_pair_in_bounds; [assumption | now exists expected]. }
  pose proof (released_eq (Pair.button pair) w) as Hr.
  destruct (default false _) in Hr.
  { left. now rewrite (watch_pair_released pair g w Hr). }
  destruct (cooling_total (Pair.button pair) w) as (c & n & Hc).
  set (w1 := restamped _ n w) in *.
  pose proof (status_eq (Pair.led pair) w1) as Hs.
  pose proof (status_eq (Pair.led pair) w) as Hs0.
  change (pins w1) with (pins w) in Hs.
  destruct (default false _) in Hs, Hs0.
  { left. now rewrite (watch_pair_lit pair g w w1 c Hr Hc Hs). }
  destruct (exceeds c 0.05%float) eqn:Hgt.
  2: { left. now rewrite (watch_pair_bounce pair g w w1 c Hr Hc Hs Hgt). }
  right. rewrite (watch_pair_out_of_range pair g w w1 c Hr Hc Hs Hgt Hi).
  rewrite Hc. now repeat split.
Qed.

Lemma early_press_is_lost_witness :
  let s := Demo.bouncing in
  (Game.watch_pair Demo.yellow (s.1, s.2)).1 = Ok tt /\
  (Game.watch_pair Demo.yellow (s.1, s.2)).2.1 = s.1.
Proof.
  intros s.
  destruct (early_press_is_lost Demo.yellow s.1 s.2
              (Button.cooling (Pair.button Demo.yellow) s.2).2
              (match (Button.cooling (Pair.button Demo.yellow) s.2).1 with
               | Ok c => c
               | _ => Int 0
               end))
    as (Hr & Hg & _);
    [vm_compute; discriminate | vm_compute; reflexivity..|].
  split; [exact Hr | exact Hg].
Defined.

Lemma watch_pair_raises_only_out_of_range_witness :
  let s := Demo.pressing 17 in
  (Game.watch_pair Demo.yellow (s.1, s.2)).1 = Ok tt \/
  (Game.watch_pair Demo.yellow (s.1, s.2)).1 = Raise IndexError.
Proof.
  intros s.
  destruct (watch_pair_raises_only_out_of_range Demo.yellow s.1 s.2) as [H|H].
  - split; vm_compute; [reflexivity | discriminate | reflexivity].
  - now left.
  - right. apply H.
Defined.

(** ** One iteration of the loop, again *)

(** X12.  A tick in which the round is not complete and the four polled
    buttons read released (no LED of the four on a button's channel)
    returns and changes nothing of the game: no button is stamped, no clock
    read, nothing drawn; the four LEDs are driven low and read 'Off'. *)
Theorem idle_tick_changes_nothing
  (g : Game.t) (w : World) (p0 p1 p2 p3 : Pair.t) (rest : list Pair.t) :
  Game.pairs g = p0 :: p1 :: p2 :: p3 :: rest ->
  Game.index g < len (Pattern.pattern (Game.pattern g)) ->
  Forall (idle w) [p0; p1; p2; p3] ->
  Forall (fun p => forall q, q ∈ [p0; p1; p2; p3] ->
            LED.gpio_port (Pair.led q) <> Button.button_port (Pair.button p))
         [p0; p1; p2; p3] ->
  let r := Game.run (g, w) in
  r.1 = Ok tt /\ r.2.1 = g /\
  stamps r.2.2 = stamps w /\ ticks r.2.2 = ticks w /\ draws r.2.2 = draws w /\
  trace r.2.2 = trace w ++ flat_map (fun p => lamp p false) [p0; p1; p2; p3] /\
  Forall (fun p => (LED.status (Pair.led p) r.2.2).1 = Ok "Off"%string)
         [p0; p1; p2; p3].
Proof.
  intros Hp Hidx Hidle Hwire r.
  assert (Hrun : Game.run (g, w) =
            (Ok tt, (g, emit (flat_map (fun p => lamp p false) [p0; p1; p2; p3]) w))).
  { unfold Game.run.
    rewrite (bind_ok (gets fst) _ (g, w) g (g, w)) by reflexivity.
    replace (len (Pattern.pattern (Game.pattern g)) <=? Game.index g) with false
      by (symmetry; apply Z.leb_gt; lia).
    rewrite (bind_ok (mret tt) _ (g, w) tt (g, w)) by reflexivity.
    now apply (polls_idle g w p0 p1 p2 p3 rest). }
  subst r. rewrite Hrun. cbn [fst snd].
  destruct (emit_frame (flat_map (fun p => lamp p false) [p0; p1; p2; p3]) w)
    as (Hst & _ & _ & Hti & _ & Hdr & Htr).
  repeat apply conj; try assumption; try reflexivity.
  rewrite Forall_forall. intros p Hin. rewrite status_eq. cbn [fst].
  assert (Hoff : forall (l : list Pair.t) w0 port,
             pins w0 !! port = Some false \/
             (exists q, q ∈ l /\ port = LED.gpio_port (Pair.led q)) ->
             pins (emit (flat_map (fun p => lamp p false) l) w0) !! port = Some false).
  { induction l as [|q l IH]; intros w0 port H.
    - destruct H as [H|(q & Hq & _)]; [exact H | inversion Hq].
    - cbn [flat_map]. rewrite emit_app. apply IH.
      destruct (decide (port = LED.gpio_port (Pair.led q))) as [->|Hne].
      + left. simpl. apply lookup_insert_eq.
      + destruct H as [H|(q' & Hq' & Hport)].
        * left. simpl. now rewrite lookup_insert_ne by congruence.
        * apply elem_of_cons in Hq' as [->|Hq']; [contradiction|].
          right. now exists q'. }
  rewrite (Hoff _ w (LED.gpio_port (Pair.led p))); [reflexivity|].
  right. now exists p.
Qed.

Lemma idle_tick_changes_nothing_witness :
  let s := hold Demo.all_released Demo.started in
  (Game.run (s.1, s.2)).1 = Ok tt /\ (Game.run (s.1, s.2)).2.1 = s.1.
Proof.
  intros s.
  destruct (idle_tick_changes_nothing s.1 s.2
              Demo.yellow Demo.blue Demo.green Demo.red [])
    as (Hr & Hg & _).
  - vm_compute. reflexivity.
  - vm_compute. reflexivity.
  - repeat constructor; vm_compute; reflexivity.
  - repeat constructor; apply Forall_forall; vm_compute;
      repeat constructor; discriminate.
  - split; [exact Hr | exact Hg].
Defined.

Lemma watch_ok_item i g w s' :
  Game.watch i (g, w) = (Ok tt, s') -> is_Some (item (Game.pairs g) i).
Proof.
  unfold Game.watch.
  rewrite (bind_ok (gets fst) _ (g, w) g (g, w)) by reflexivity.
  unfold mbind, M_bind, bind, getitem.
  destruct (item (Game.pairs g) i) as [pair|]; [eauto | discriminate].
Qed.

Lemma polled_pairs g g' : polled g g' -> Game.pairs g' = Game.pairs g.
Proof. now intros []. Qed.

(** X13.  [run()] polls [pairs[0]] to [pairs[3]]: on a built game with
    fewer than four pairs no call of it returns normally, whatever the
    buttons do. *)
Theorem run_needs_four_pairs (g : Game.t) (w : World) :
  built g ->
  (length (Game.pairs g) < 4)%nat ->
  (Game.run (g, w)).1 <> Ok tt.
Proof.
  intros Hb Hlen Hok.
  destruct (Game.run (g, w)) as [r [g' w']] eqn:Hrun. simpl in Hok. subst r.
  unfold Game.run in Hrun.
  rewrite (bind_ok (gets fst) _ (g, w) g (g, w)) in Hrun by reflexivity.
  cbn beta in Hrun.
  apply bind_cases in Hrun as [([] & [g1 w1] & H1 & Hrun)|[_ H]];
    [|now apply (H tt)].
  assert (Hb1 : built g1 /\ Game.pairs g1 = Game.pairs g).
  { destruct (Z.leb_spec (len (Pattern.pattern (Game.pattern g))) (Game.index g)).
    - pose proof Hb as [Hpool Hne _].
      destruct (drawn_is_Some (Pattern.pairs (Game.pattern g)) w 0) as (x & Hx & _);
        [now rewrite Hpool|].
      destruct (sleep_accepts (PrimFloat.sub (Game.speed g) 0.1%float)) eqn:Hs.
      + rewrite (round_block_ok g w x Hx Hs) in H1. injection H1 as <- _.
        split; [now apply extended_built | reflexivity].
      + destruct (round_block_refused g w x Hx Hs) as (w2 & Hr).
        rewrite Hr in H1. discriminate.
    - injection H1 as <- _. now split. }
  destruct Hb1 as [Hb1 Hp1].
  apply bind_cases in Hrun as [([] & [g2 w2] & H2 & Hrun)|[_ H]];
    [|now apply (H tt)].
  apply watch_polled in H2; [|assumption].
  apply bind_cases in Hrun as [([] & [g3 w3] & H3 & Hrun)|[_ H]];
    [|now apply (H tt)].
  apply watch_polled in H3; [|now apply (polled_built g1)].
  apply bind_cases in Hrun as [([] & [g4 w4] & H4 & Hrun)|[_ H]];
    [|now apply (H tt)].
  apply watch_polled in H4;
    [|apply (polled_built g2); [assumption | now apply (polled_built g1)]].
  apply watch_ok_item in Hrun as [pair Hi].
  apply item_Some_bounds in Hi. unfold len in Hi.
  rewrite (polled_pairs _ _ H4), (polled_pairs _ _ H3), (polled_pairs _ _ H2), Hp1 in Hi.
  lia.
Qed.

Lemma run_needs_four_pairs_witness :
  (Game.run (Demo.short_pool, Demo.assembled)).1 <> Ok tt.
Proof.
  apply run_needs_four_pairs.
  - split; [reflexivity | discriminate | reflexivity].
  - simpl. lia.
Defined.

(** X14.  However [run()] ends on a built game, it leaves the pool, the
    pool of the pattern and the pause of the animation as they were, and
    the game built. *)
Theorem run_keeps_the_pool (g : Game.t) (w : World) :
  built g ->
  let g' := (Game.run (g, w)).2.1 in
  Game.pairs g' = Game.pairs g /\
  Pattern.pairs (Game.pattern g') = Pattern.pairs (Game.pattern g) /\
  Pattern.cycle (Game.pattern g') = Pattern.cycle (Game.pattern g) /\
  built g'.
Proof.
  intros Hb g'. subst g'.
  destruct (Game.run (g, w)) as [r [g' w']] eqn:Hrun. cbn [fst snd].
  assert (Hrtc : forall g1 g2, rtc polled g1 g2 ->
            Game.pairs g2 = Game.pairs g1 /\
            Pattern.pairs (Game.pattern g2) = Pattern.pairs (Game.pattern g1) /\
            Pattern.cycle (Game.pattern g2) = Pattern.cycle (Game.pattern g1)).
  { induction 1 as [|g1 g2 g3 Hstep _ IH]; [now repeat split|].
    destruct IH as (-> & -> & ->). now destruct Hstep. }
  assert (H : Game.pairs g' = Game.pairs g /\
              Pattern.pairs (Game.pattern g') = Pattern.pairs (Game.pattern g) /\
              Pattern.cycle (Game.pattern g') = Pattern.cycle (Game.pattern g)).
  { apply run_cases in Hrun as [[_ H]|(_ & x & _ & [H|[-> _]])];
      [exact (Hrtc _ _ H) | exact (Hrtc _ _ H) | now repeat split | exact Hb]. }
  destruct H as (Hp & Hpp & Hc). repeat split; try assumption.
  - rewrite Hpp, Hp. apply Hb.
  - rewrite Hp. apply Hb.
  - rewrite Hc. apply Hb.
Qed.

Lemma run_keeps_the_pool_witness :
  Game.pairs (Game.run (Demo.started.1, Demo.started.2)).2.1 = Game.pairs Demo.started.1.
Proof.
  refine (proj1 (run_keeps_the_pool Demo.started.1 Demo.started.2 _)).
  split; vm_compute; [reflexivity | discriminate | reflexivity].
Defined.

(** ** Constructing the game *)

(** X15.  [Game(pairs)] needs a pool to draw from.  On an empty pool it
    raises IndexError and leaves the world as it was; on any other pool it
    returns a game over that pool with [speed] 1.00, [index] 0 and a
    pattern of three pairs of the pool, having taken three draws and
    touched no channel. *)
Theorem constructor_needs_a_pool (pairs : list Pair.t) (w : World) :
  (pairs = [] -> Game.__init__ pairs w = (Raise IndexError, w)) /\
  (pairs <> [] ->
   exists g,
     (Game.__init__ pairs w).1 = Ok g /\
     Game.pairs g = pairs /\ Game.speed g = 1.00%float /\ Game.index g = 0 /\
     length (Pattern.pattern (Game.pattern g)) = 3%nat /\
     Forall (fun p => p ∈ pairs) (Pattern.pattern (Game.pattern g)) /\
     sound g /\
     (Game.__init__ pairs w).2 = with_draws (3 + draws w) w).
Proof.
  split.
  - intros ->. unfold Game.__init__, Pattern.__init__. unfold mbind, M_bind, bind.
    now rewrite generate_empty_pool.
  - intros Hne.
    destruct (drawn_is_Some pairs w 0 Hne) as (a & Ha & Hain).
    destruct (drawn_is_Some pairs w 1 Hne) as (b & Hb & Hbin).
    destruct (drawn_is_Some pairs w 2 Hne) as (c & Hc & Hcin).
    unfold Game.__init__, Pattern.__init__. unfold mbind, M_bind, bind.
    erewrite generate_ok by eassumption. cbn [fst snd].
    eexists. repeat apply conj; try reflexivity.
    + now repeat constructor.
    + split; [now split | simpl; lia | unfold len; simpl; lia | reflexivity].
Qed.

Lemma constructor_needs_a_pool_witness :
  exists g, (Game.__init__ Demo.pool Demo.assembled).1 = Ok g /\ Game.pairs g = Demo.pool.
Proof.
  destruct (constructor_needs_a_pool Demo.pool Demo.assembled) as [_ H].
  destruct H as (g & Hg & Hp & _); [discriminate|].
  exists g. now split.
Defined.

(** X16.  With an empty pool [generate()] raises IndexError only after it
    has emptied the pattern, so the old pattern is lost; [add()] raises
    before it changes anything. *)
Theorem empty_pool_generate_clears (p : Pattern.t) (w : World) :
  Pattern.pairs p = [] ->
  (Pattern.generate (p, w)).1 = Raise IndexError /\
  Pattern.pattern (Pattern.generate (p, w)).2.1 = [] /\
  (Pattern.generate (p, w)).2.2 = w /\
  Pattern.add (p, w) = (Raise IndexError, (p, w)).
Proof.
  intros H. rewrite (generate_empty_pool p w H), (add_empty_pool p w H).
  now repeat split.
Qed.

Lemma empty_pool_generate_clears_witness :
  Pattern.pattern
    (Pattern.generate (Pattern.mk [] true 0.06%float [Demo.yellow], Demo.world)).2.1 = [].
Proof.
  refine (proj1 (proj2 (empty_pool_generate_clears
            (Pattern.mk [] true 0.06%float [Demo.yellow]) Demo.world _))).
  reflexivity.
Defined.

(** X17.  With fewer than two pairs in the pool the attract animation has
    nothing to visit: [cycle_lights()] returns without any output or pause,
    whatever the pause is set to. *)
Theorem attract_animation_needs_two_pairs (p : Pattern.t) (w : World) :
  (length (Pattern.pairs p) <= 1)%nat ->
  Pattern.cycle_lights (p, w) = (Ok tt, (p, w)).
Proof.
  intros Hlen.
  assert (Hf : Pattern.cycle_forward (p, w) = (Ok tt, (p, w))).
  { unfold Pattern.cycle_forward.
    rewrite (bind_ok (gets fst) _ (p, w) p (p, w)) by reflexivity.
    destruct (Pattern.pairs p) as [|x [|y l]]; [reflexivity..|simpl in Hlen; lia]. }
  assert (Hb : Pattern.cycle_backward (p, w) = (Ok tt, (p, w))).
  { unfold Pattern.cycle_backward.
    rewrite (bind_ok (gets fst) _ (p, w) p (p, w)) by reflexivity.
    destruct (Pattern.pairs p) as [|x [|y l]]; [reflexivity..|simpl in Hlen; lia]. }
  assert (Hloop : forall fuel iterations,
             10 - iterations <= Z.of_nat fuel ->
             Pattern.cycle_lights_loop fuel iterations (p, w) = (Ok tt, (p, w))).
  { induction fuel as [|fuel IH]; intros iterations Hle; simpl;
      destruct (Z.ltb_spec iterations 10); try reflexivity; [lia|].
    rewrite (bind_ok _ _ _ _ _ Hf), (bind_ok _ _ _ _ _ Hb). apply IH. lia. }
  apply Hloop. simpl. lia.
Qed.

Lemma attract_animation_needs_two_pairs_witness :
  Pattern.cycle_lights (Pattern.mk [Demo.yellow] true 0.06%float [], Demo.world) =
  (Ok tt, (Pattern.mk [Demo.yellow] true 0.06%float [], Demo.world)).
Proof.
  apply attract_animation_needs_two_pairs. simpl. lia.
Defined.

(** ** Sessions, again *)

Lemma polled_stocked g g' :
  polled g g' -> built g ->
  Forall (fun p => p ∈ Game.pairs g) (Pattern.pattern (Game.pattern g)) /\
  Pattern.new (Game.pattern g) = true ->
  Forall (fun p => p ∈ Game.pairs g') (Pattern.pattern (Game.pattern g')) /\
  Pattern.new (Game.pattern g') = true.
Proof.
  intros [|expected _|w1 a b c w2 Hreset] [Hpool Hne Hcycle] H; try exact H.
  rewrite <- Hpool in Hne.
  destruct (drawn_is_Some _ w1 0 Hne) as (x & Hx & Hxin).
  destruct (drawn_is_Some _ w1 1 Hne) as (y & Hy & Hyin).
  destruct (drawn_is_Some _ w1 2 Hne) as (z & Hz & Hzin).
  rewrite (reset_ok g w1 x y z) in Hreset by (try assumption; now rewrite Hcycle).
  rewrite Hpool in Hxin, Hyin, Hzin.
  injection Hreset as <- <- <- _. split; [|reflexivity].
  simpl. now repeat constructor.
Qed.

Lemma rtc_polled_stocked g g' :
  rtc polled g g' -> built g ->
  Forall (fun p => p ∈ Game.pairs g) (Pattern.pattern (Game.pattern g)) /\
  Pattern.new (Game.pattern g) = true ->
  Forall (fun p => p ∈ Game.pairs g') (Pattern.pattern (Game.pattern g')) /\
  Pattern.new (Game.pattern g') = true.
Proof.
  induction 1 as [|g1 g2 g3 Hstep _ IH]; intros Hb H; [exact H|].
  apply IH; [now apply (polled_built g1)|now apply (polled_stocked g1)].
Qed.

Lemma extended_stocked g x i :
  x ∈ Game.pairs g ->
  Forall (fun p => p ∈ Game.pairs g) (Pattern.pattern (Game.pattern g)) ->
  Forall (fun p => p ∈ Game.pairs (extended g x i))
         (Pattern.pattern (Game.pattern (extended g x i))) /\
  Pattern.new (Game.pattern (extended g x i)) = true.
Proof.
  intros Hx H. split; [|reflexivity]. simpl.
  apply Forall_app. split; [assumption | now repeat constructor].
Qed.

(** X18.  Throughout a session every pair of the pattern is a pair of the
    pool, [index] lies between 0 and the length of the pattern, and the
    [new] flag of the pattern, set by [generate()] and [add()] and cleared
    nowhere, is True. *)
Theorem session_pattern_is_from_the_pool (s : Game.St) :
  session s ->
  Forall (fun p => p ∈ Game.pairs s.1) (Pattern.pattern (Game.pattern s.1)) /\
  0 <= Game.index s.1 <= len (Pattern.pattern (Game.pattern s.1)) /\
  Pattern.new (Game.pattern s.1) = true.
Proof.
  intros Hs.
  enough (Forall (fun p => p ∈ Game.pairs s.1) (Pattern.pattern (Game.pattern s.1)) /\
          Pattern.new (Game.pattern s.1) = true) as [H1 H2].
  { repeat split; try assumption; apply (session_sound s Hs). }
  induction Hs as [pairs w g w' s Hinit Hstart|s pair level Hs IH _|s s' Hs IH Hrun].
  - apply init_game in Hinit as (Hne & a & b & c & ->).
    destruct s as [g' w''].
    set (g := Game.mk pairs _ _ _) in Hstart.
    destruct (drawn_is_Some pairs w' 0 Hne) as (x & Hx & Hxin).
    destruct (drawn_is_Some pairs w' 1 Hne) as (y & Hy & Hyin).
    destruct (drawn_is_Some pairs w' 2 Hne) as (z & Hz & Hzin).
    pose proof (start_ok g w' x y z eq_refl eq_refl Hx Hy Hz) as Hok.
    rewrite Hok in Hstart.
    apply (f_equal (fun r => r.2.1)) in Hstart. cbn [fst snd] in Hstart.
    subst g'. split; [|reflexivity].
    cbn [fst Game.pairs Game.pattern Pattern.pattern g].
    now repeat constructor.
  - exact IH.
  - destruct s as [g w], s' as [g' w']. cbn [fst] in *.
    pose proof (sound_built _ (session_sound _ Hs)) as Hb. cbn [fst] in Hb.
    destruct (run_cases _ _ _ _ _ Hb Hrun) as [[_ H]|(_ & x & Hx & [H|[_ Habs]])].
    + now apply (rtc_polled_stocked g).
    + apply (rtc_polled_stocked _ _ H); [now apply extended_built|].
      apply extended_stocked; [assumption | apply IH].
    + discriminate.
Qed.

Lemma session_pattern_is_from_the_pool_witness :
  Forall (fun p => p ∈ Game.pairs (Demo.rounds 10 Demo.started).1)
         (Pattern.pattern (Game.pattern (Demo.rounds 10 Demo.started).1)).
Proof.
  exact (proj1 (session_pattern_is_from_the_pool _ (proj1 demo_session_ten_rounds))).
Defined.

(** ** Launch *)

Lemma setup_eq (w : World) :
  exists w1,
    Main.setup w = Game.__init__ (main_pool (objects w)) w1 /\
    dice w1 = dice w /\ draws w1 = draws w /\
    forall p, p ∈ main_pool (objects w) ->
      stamps w1 !! Button.id (Pair.button p) = None.
Proof.
  eexists. split; [|split; [|split]].
  - unfold Main.setup, LED.__init__, Button.__init__, GPIO.setup_out,
      GPIO.setup_in_pull_up.
    unfold mbind, mret, M_bind, M_ret, bind, ret, modify, gets.
    cbn. reflexivity.
  - reflexivity.
  - reflexivity.
  - intros p Hp. cbn. unfold main_pool in Hp.
    rewrite !elem_of_cons, elem_of_nil in Hp.
    destruct Hp as [->|[->|[->|[->|[]]]]]; cbn;
      rewrite !lookup_delete_None; auto.
Qed.

Lemma init_ok (pairs : list Pair.t) (w : World) :
  pairs <> [] ->
  exists a b c,
    a ∈ pairs /\ b ∈ pairs /\ c ∈ pairs /\
    Game.__init__ pairs w =
    (Ok (Game.mk pairs 1.00%float (Pattern.mk pairs true 0.06%float [a; b; c]) 0),
     with_draws (3 + draws w) w).
Proof.
  intros Hne.
  destruct (drawn_is_Some pairs w 0 Hne) as (a & Ha & Hain).
  destruct (drawn_is_Some pairs w 1 Hne) as (b & Hb & Hbin).
  destruct (drawn_is_Some pairs w 2 Hne) as (c & Hc & Hcin).
  exists a, b, c. repeat apply conj; try assumption.
  unfold Game.__init__, Pattern.__init__. unfold mbind, M_bind, bind.
  erewrite generate_ok by eassumption. reflexivity.
Qed.

Lemma main_pool_wired (first : nat) : wired (main_pool first).
Proof.
  intros p q Hp Hq. unfold main_pool in Hp, Hq.
  rewrite !elem_of_cons, elem_of_nil in Hp, Hq.
  destruct Hp as [->|[->|[->|[->|[]]]]], Hq as [->|[->|[->|[->|[]]]]];
    discriminate.
Qed.

Lemma main_pool_own_buttons (first : nat) :
  NoDup ((fun x => Button.id (Pair.button x)) <$> main_pool first).
Proof.
  cbn. repeat (apply NoDup_cons; split;
    [rewrite ?elem_of_cons, elem_of_nil; lia|]). apply NoDup_nil_2.
Qed.

Lemma quiet_visits port (l : list Pair.t) pause :
  (forall q, q ∈ l -> LED.gpio_port (Pair.led q) <> port) ->
  quiet port (flat_map (visit pause) l).
Proof.
  intros H. induction l as [|q l IH]; [constructor|].
  cbn [flat_map]. apply quiet_app.
  - assert (LED.gpio_port (Pair.led q) <> port) by (apply H; left).
    repeat constructor; assumption.
  - apply IH. intros q' Hq'. apply H. now right.
Qed.

Lemma quiet_sweeps port (pool : list Pair.t) pause n :
  (forall q, q ∈ pool -> LED.gpio_port (Pair.led q) <> port) ->
  quiet port (concat (replicate n (sweep_events pause pool))).
Proof.
  intros H. induction n as [|n IH]; [constructor|].
  cbn [replicate concat]. apply quiet_app; [|exact IH].
  apply quiet_app; apply quiet_visits; intros q Hq; apply H.
  - unfold forward_sweep in Hq. apply list_elem_of_lookup in Hq as [i Hi].
    rewrite lookup_drop in Hi. now apply list_elem_of_lookup_2 in Hi.
  - unfold backward_sweep in Hq. rewrite elem_of_reverse in Hq.
    apply list_elem_of_lookup in Hq as [i Hi].
    apply lookup_take_Some in Hi as [Hi _]. now apply list_elem_of_lookup_2 in Hi.
Qed.

Lemma visits_leave_off (l : list Pair.t) pause : forall w port,
  pins w !! port = Some false \/
  (exists q, q ∈ l /\ port = LED.gpio_port (Pair.led q)) ->
  pins (emit (flat_map (visit pause) l) w) !! port = Some false.
Proof.
  induction l as [|q l IH]; intros w port H.
  - destruct H as [H|(q & Hq & _)]; [exact H | inversion Hq].
  - cbn [flat_map]. rewrite emit_app. apply IH.
    destruct (decide (port = LED.gpio_port (Pair.led q))) as [->|Hne].
    + left. simpl. apply lookup_insert_eq.
    + assert (Hsame : pins (emit (visit pause q) w) !! port = pins w !! port).
      { apply emit_pins_other. unfold quiet, visit.
        repeat constructor; congruence. }
      destruct H as [H|(q' & Hq' & Hport)].
      * left. now rewrite Hsame.
      * apply elem_of_cons in Hq' as [->|Hq']; [contradiction|].
        right. now exists q'.
Qed.

(** One forward and backward sweep over a pool of two pairs or more visits
    every LED of the pool. *)
Lemma sweep_leaves_off (pool : list Pair.t) pause w port :
  pins w !! port = Some false \/
  ((2 <= length pool)%nat /\
   exists q, q ∈ pool /\ port = LED.gpio_port (Pair.led q)) ->
  pins (emit (sweep_events pause pool) w) !! port = Some false.
Proof.
  intros H. unfold sweep_events. rewrite emit_app.
  destruct H as [H|(Hlen & q & Hq & ->)].
  - apply visits_leave_off. left. apply visits_leave_off. now left.
  - apply list_elem_of_lookup in Hq as [i Hi].
    pose proof (lookup_lt_Some _ _ _ Hi) as Hlt.
    destruct (decide (i < length pool - 1)%nat) as [Hin|Hlast].
    + apply visits_leave_off. right. exists q. split; [|reflexivity].
      unfold backward_sweep. apply elem_of_reverse.
      apply (list_elem_of_lookup_2 _ i). apply lookup_take_Some. now split.
    + apply visits_leave_off. left. apply visits_leave_off. right.
      exists q. split; [|reflexivity]. unfold forward_sweep.
      apply (list_elem_of_lookup_2 _ (i - 1)). rewrite lookup_drop.
      now replace (1 + (i - 1))%nat with i by lia.
Qed.

Lemma sweeps_leave_off (pool : list Pair.t) pause n : forall w port,
  pins w !! port = Some false \/
  ((1 <= n)%nat /\ (2 <= length pool)%nat /\
   exists q, q ∈ pool /\ port = LED.gpio_port (Pair.led q)) ->
  pins (emit (concat (replicate n (sweep_events pause pool))) w) !! port = Some false.
Proof.
  induction n as [|n IH]; intros w port H.
  - destruct H as [H|[Hn _]]; [exact H | lia].
  - cbn [replicate concat]. rewrite emit_app. apply IH. left.
    apply sweep_leaves_off.
    destruct H as [H|(_ & Hlen & Hq)]; [now left | right; now split].
Qed.

(** X19.  In whatever state the board is found, the objects [__main__]
    builds make a game over four pairs whose buttons are four distinct
    objects, with no LED on the channel of a button; the first
    [cooling()] of every button will return 10. *)
Theorem main_builds_a_wired_pool (w : World) :
  exists g w',
    Main.setup w = (Ok g, w') /\
    Game.pairs g = main_pool (objects w) /\
    built g /\
    wired (Game.pairs g) /\
    NoDup ((fun x => Button.id (Pair.button x)) <$> Game.pairs g) /\
    forall p, p ∈ Game.pairs g ->
      (Button.cooling (Pair.button p) w').1 = Ok (Int 10).
Proof.
  destruct (setup_eq w) as (w1 & Hsetup & _ & _ & Hpins).
  destruct (init_ok (main_pool (objects w)) w1) as (a & b & c & _ & _ & _ & Hinit);
    [discriminate|].
  rewrite Hinit in Hsetup. do 2 eexists. split; [exact Hsetup|].
  cbn [Game.pairs]. repeat apply conj.
  - reflexivity.
  - split; [reflexivity | discriminate | reflexivity].
  - apply main_pool_wired.
  - apply main_pool_own_buttons.
  - intros p Hp. rewrite cooling_first; [reflexivity | exact (Hpins p Hp)].
Qed.

Lemma launch_ok (pool : list Pair.t) (w : World) :
  pool <> [] ->
  exists a b c x y z,
    x ∈ pool /\ y ∈ pool /\ z ∈ pool /\
    Game.__init__ pool w =
    (Ok (Game.mk pool 1.00%float (Pattern.mk pool true 0.06%float [a; b; c]) 0),
     with_draws (3 + draws w) w) /\
    Game.start
      (Game.mk pool 1.00%float (Pattern.mk pool true 0.06%float [a; b; c]) 0,
       with_draws (3 + draws w) w) =
    (Ok tt,
     (Game.mk pool 1.00%float (Pattern.mk pool true 0.06%float [x; y; z]) 0,
      emit (flat_map (show 1.00%float) [x; y; z])
        (with_draws (6 + draws w)
           (emit (concat (replicate 10 (sweep_events 0.06%float pool)))
              (with_draws (3 + draws w) w))))).
Proof.
  intros Hne.
  destruct (init_ok pool w Hne) as (a & b & c & _ & _ & _ & Hinit).
  destruct (drawn_is_Some pool (with_draws (3 + draws w) w) 0 Hne) as (x & Hx & Hxin).
  destruct (drawn_is_Some pool (with_draws (3 + draws w) w) 1 Hne) as (y & Hy & Hyin).
  destruct (drawn_is_Some pool (with_draws (3 + draws w) w) 2 Hne) as (z & Hz & Hzin).
  exists a, b, c, x, y, z. repeat apply conj; try assumption.
  apply start_ok; try assumption; reflexivity.
Qed.

Lemma launch_settled (pool : list Pair.t) (w : World) n (x y z p : Pair.t) :
  (2 <= length pool)%nat ->
  p ∈ pool ->
  let w' := emit (flat_map (show 1.00%float) [x; y; z])
              (with_draws n
                 (emit (concat (replicate 10 (sweep_events 0.06%float pool))) w)) in
  LED.status (Pair.led p) w' = (Ok "Off"%string, w').
Proof.
  intros Hlen Hp w'. subst w'.
  rewrite status_eq. erewrite shows_leave_off; [reflexivity|].
  left. cbn [pins with_draws]. apply sweeps_leave_off. right.
  split; [lia|]. split; [exact Hlen|]. exists p. split; [exact Hp | reflexivity].
Qed.

(** X20.  In whatever state the board is found, [__main__] reaches its
    loop: the constructors and [start()] return, and the game enters the
    loop over the four pairs with [index] 0, [speed] 1.00, a pattern of
    three pairs of the pool and every LED reading 'Off'. *)
Theorem launch_reaches_the_loop (w : World) :
  exists g w' s,
    Main.setup w = (Ok g, w') /\
    Game.start (g, w') = (Ok tt, s) /\
    session s /\
    Game.pairs s.1 = main_pool (objects w) /\
    Game.index s.1 = 0 /\
    Game.speed s.1 = 1.00%float /\
    length (Pattern.pattern (Game.pattern s.1)) = 3%nat /\
    Forall (fun p => p ∈ Game.pairs s.1) (Pattern.pattern (Game.pattern s.1)) /\
    forall p, p ∈ Game.pairs s.1 ->
      LED.status (Pair.led p) s.2 = (Ok "Off"%string, s.2).
Proof.
  destruct (setup_eq w) as (w1 & Hsetup & _ & _ & _).
  assert (Hne : main_pool (objects w) <> []) by discriminate.
  assert (Hlen : (2 <= length (main_pool (objects w)))%nat) by (simpl; lia).
  remember (main_pool (objects w)) as pool eqn:Hpool.
  destruct (launch_ok pool w1 Hne)
    as (a & b & c & x & y & z & Hxin & Hyin & Hzin & Hinit & Hstart).
  rewrite Hinit in Hsetup.
  do 3 eexists. split; [exact Hsetup|]. split; [exact Hstart|].
  split; [exact (session_launch _ _ _ _ _ Hinit Hstart)|].
  clear Hsetup Hinit Hstart.
  cbn [fst snd Game.pairs Game.index Game.speed Game.pattern Pattern.pattern].
  repeat apply conj; try reflexivity.
  - repeat (apply Forall_cons_2; [assumption|]). apply Forall_nil_2.
  - intros p Hp. apply launch_settled; assumption.
Qed.

(** ** One press a tick *)

Lemma fresh_world_pins g a b c w port :
  (forall q, q ∈ Pattern.pairs (Game.pattern g) -> LED.gpio_port (Pair.led q) <> port) ->
  a ∈ Pattern.pairs (Game.pattern g) ->
  b ∈ Pattern.pairs (Game.pattern g) ->
  c ∈ Pattern.pairs (Game.pattern g) ->
  pins (fresh_world g a b c w) !! port = pins w !! port.
Proof.
  intros H Ha Hb Hc. unfold fresh_world.
  rewrite emit_pins_other.
  2: { apply quiet_shows. intros q Hq.
       rewrite !elem_of_cons, elem_of_nil in Hq.
       destruct Hq as [->|[->|[->|[]]]]; apply H; assumption. }
  rewrite emit_pins_other; [reflexivity|].
  apply quiet_sweeps. exact H.
Qed.

(** A poll of a pair of the pool that finds the button released, or
    [index] inside the pattern, returns; a released button leaves the game
    as it is; no channel of a button changes its level. *)
Lemma poll_step pair g w :
  built g ->
  wired (Game.pairs g) ->
  pair ∈ Game.pairs g ->
  idle w pair \/ is_Some (item (Pattern.pattern (Game.pattern g)) (Game.index g)) ->
  exists g' w',
    Game.watch_pair pair (g, w) = (Ok tt, (g', w')) /\
    (idle w pair -> g' = g) /\
    built g' /\
    Game.pairs g' = Game.pairs g /\
    forall q, q ∈ Game.pairs g ->
      pins w' !! Button.button_port (Pair.button q) =
      pins w !! Button.button_port (Pair.button q).
Proof.
  intros Hb Hw Hin H. pose proof Hb as [Hpool Hne Hcycle].
  assert (Hlamp : forall level w0 q, q ∈ Game.pairs g ->
            pins (emit (lamp pair level) w0) !! Button.button_port (Pair.button q) =
            pins w0 !! Button.button_port (Pair.button q)).
  { intros level w0 q Hq. apply lamp_pins. apply (Hw q pair); assumption. }
  pose proof (released_eq (Pair.button pair) w) as Hr.
  destruct (default false _) in Hr.
  { rewrite (watch_pair_released pair g w Hr). do 2 eexists.
    split; [reflexivity|]. repeat apply conj; try reflexivity; try assumption.
    intros q Hq. now apply Hlamp. }
  assert (Hnot : ~ idle w pair).
  { unfold idle. rewrite Hr. discriminate. }
  destruct H as [H|[expected Hi]]; [contradiction|].
  destruct (cooling_total (Pair.button pair) w) as (c & n & Hc).
  remember (restamped (Pair.button pair) n w) as w1 eqn:Hw1.
  assert (Hp1 : pins w1 = pins w) by (rewrite Hw1; apply restamped_pins).
  pose proof (status_eq (Pair.led pair) w1) as Hs.
  destruct (default false _) in Hs.
  { rewrite (watch_pair_lit pair g w w1 c Hr Hc Hs). do 2 eexists.
    split; [reflexivity|]. repeat apply conj; try reflexivity; try assumption.
    intros q Hq. now rewrite Hp1. }
  destruct (exceeds c 0.05%float) eqn:Hgt.
  2: { rewrite (watch_pair_bounce pair g w w1 c Hr Hc Hs Hgt). do 2 eexists.
       split; [reflexivity|]. repeat apply conj; try reflexivity; try assumption.
       intros q Hq. rewrite Hlamp by assumption. now rewrite Hp1. }
  destruct (Button.is_ (Pair.button pair) (Pair.button expected)) eqn:His.
  { rewrite (watch_pair_match pair g w w1 c Hr Hc Hs Hgt expected Hi His).
    do 2 eexists. split; [reflexivity|]. repeat apply conj; try reflexivity.
    - intros Hidle. contradiction.
    - split; assumption.
    - intros q Hq. rewrite Hlamp by assumption. now rewrite Hp1. }
  rewrite <- Hpool in Hne.
  destruct (drawn_is_Some _ w1 0 Hne) as (x & Hx & Hxin).
  destruct (drawn_is_Some _ w1 1 Hne) as (y & Hy & Hyin).
  destruct (drawn_is_Some _ w1 2 Hne) as (z & Hz & Hzin).
  assert (Hsl : sleep_accepts (Pattern.cycle (Game.pattern g)) = true)
    by now rewrite Hcycle.
  pose proof (reset_ok g w1 x y z Hsl Hx Hy Hz) as Hreset.
  rewrite (watch_pair_mismatch pair g w w1 c Hr Hc Hs Hgt expected Hi _ _ His Hreset).
  do 2 eexists. split; [reflexivity|]. repeat apply conj; try reflexivity.
  - intros Hidle. contradiction.
  - split; [exact Hpool | unfold fresh_game; cbn [Game.pairs]; now rewrite <- Hpool | exact Hcycle].
  - intros q Hq. rewrite Hlamp by assumption.
    rewrite fresh_world_pins; try assumption; [now rewrite Hp1|].
    intros q' Hq'. rewrite Hpool in Hq'. apply (Hw q q'); assumption.
Qed.

Lemma watch_eq i g w pair :
  item (Game.pairs g) i = Some pair ->
  Game.watch i (g, w) = Game.watch_pair pair (g, w).
Proof.
  intros Hi. unfold Game.watch.
  rewrite (bind_ok (gets fst) _ (g, w) g (g, w)) by reflexivity.
  unfold mbind, M_bind, bind, getitem. rewrite Hi. reflexivity.
Qed.

(** The [j]-th poll of a tick in which no button but the [k]-th is
    pressed: it returns, the game is the one the tick began with as long
    as the [k]-th pair has not been polled, and the buttons read what they
    read when the tick began. *)
Lemma watch_step (g0 : Game.t) (w0 : World) (k j : nat) (pair : Pair.t) g w :
  built g0 ->
  wired (Game.pairs g0) ->
  is_Some (item (Pattern.pattern (Game.pattern g0)) (Game.index g0)) ->
  Game.pairs g0 !! j = Some pair ->
  (j <> k -> idle w0 pair) ->
  built g /\ Game.pairs g = Game.pairs g0 /\
  (forall q, q ∈ Game.pairs g0 ->
     pins w !! Button.button_port (Pair.button q) =
     pins w0 !! Button.button_port (Pair.button q)) /\
  ((j <= k)%nat -> g = g0) ->
  exists g' w',
    Game.watch (Z.of_nat j) (g, w) = (Ok tt, (g', w')) /\
    built g' /\ Game.pairs g' = Game.pairs g0 /\
    (forall q, q ∈ Game.pairs g0 ->
       pins w' !! Button.button_port (Pair.button q) =
       pins w0 !! Button.button_port (Pair.button q)) /\
    ((S j <= k)%nat -> g' = g0).
Proof.
  intros Hb0 Hw0 Hi Hj Hidle (Hb & Hpairs & Hpins & Hsame).
  assert (Hin : pair ∈ Game.pairs g0) by now apply list_elem_of_lookup_2 in Hj.
  rewrite (watch_eq _ g w pair) by now rewrite item_nat, Hpairs.
  assert (Hcase : idle w pair \/
                  is_Some (item (Pattern.pattern (Game.pattern g)) (Game.index g))).
  { destruct (decide (j = k)) as [->|Hjk].
    - right. rewrite Hsame by lia. exact Hi.
    - left. apply (idle_pins w0); [now apply Hpins | now apply Hidle]. }
  destruct (poll_step pair g w Hb) as (g' & w' & Hrun & Hkeep & Hb' & Hpairs' & Hpins');
    [now rewrite Hpairs | now rewrite Hpairs | exact Hcase |].
  exists g', w'. split; [exact Hrun|]. repeat apply conj.
  - exact Hb'.
  - now rewrite Hpairs'.
  - intros q Hq. rewrite Hpins' by now rewrite Hpairs. now apply Hpins.
  - intros Hle. rewrite Hkeep; [apply Hsame; lia|].
    apply (idle_pins w0); [now apply Hpins | apply Hidle; lia].
Qed.

Lemma polls_one_press (g : Game.t) (w : World) (k : nat) :
  built g ->
  wired (Game.pairs g) ->
  (4 <= length (Game.pairs g))%nat ->
  is_Some (item (Pattern.pattern (Game.pattern g)) (Game.index g)) ->
  (forall i p, (i < 4)%nat -> i <> k -> Game.pairs g !! i = Some p -> idle w p) ->
  ((Game.watch 0;; Game.watch 1;; Game.watch 2;; Game.watch 3) (g, w)).1 = Ok tt.
Proof.
  intros Hb Hw Hlen Hi Hidle.
  destruct (lookup_lt_is_Some_2 (Game.pairs g) 0) as [p0 H0]; [lia|].
  destruct (lookup_lt_is_Some_2 (Game.pairs g) 1) as [p1 H1]; [lia|].
  destruct (lookup_lt_is_Some_2 (Game.pairs g) 2) as [p2 H2]; [lia|].
  destruct (lookup_lt_is_Some_2 (Game.pairs g) 3) as [p3 H3]; [lia|].
  destruct (watch_step g w k 0 p0 g w Hb Hw Hi H0) as (g1 & w1 & E0 & I1);
    [intros ?; apply (Hidle 0%nat); [lia | assumption | assumption]
    | repeat apply conj; [exact Hb | intros; reflexivity ..] |].
  destruct (watch_step g w k 1 p1 g1 w1 Hb Hw Hi H1) as (g2 & w2 & E1 & I2);
    [intros ?; apply (Hidle 1%nat); [lia | assumption | assumption] | exact I1 |].
  destruct (watch_step g w k 2 p2 g2 w2 Hb Hw Hi H2) as (g3 & w3 & E2 & I3);
    [intros ?; apply (Hidle 2%nat); [lia | assumption | assumption] | exact I2 |].
  destruct (watch_step g w k 3 p3 g3 w3 Hb Hw Hi H3) as (g4 & w4 & E3 & I4);
    [intros ?; apply (Hidle 3%nat); [lia | assumption | assumption] | exact I3 |].
  change (Z.of_nat 0) with 0 in E0. change (Z.of_nat 1) with 1 in E1.
  change (Z.of_nat 2) with 2 in E2. change (Z.of_nat 3) with 3 in E3.
  rewrite (bind_ok _ _ _ _ _ E0), (bind_ok _ _ _ _ _ E1), (bind_ok _ _ _ _ _ E2), E3.
  reflexivity.
Qed.

(** X21.  An iteration of the loop in which at most one of the four polled
    buttons is pressed never raises IndexError: on a game built by the
    constructor whose pattern is drawn from its pool, with no LED wired to
    the channel of a button, [run()] returns, unless the round is complete
    and [time.sleep] refuses the decreased speed, in which case it raises
    ValueError. *)
Theorem one_press_a_tick_is_safe (g : Game.t) (w : World) (k : nat) :
  built g ->
  wired (Game.pairs g) ->
  Forall (fun p => p ∈ Game.pairs g) (Pattern.pattern (Game.pattern g)) ->
  0 <= Game.index g ->
  (4 <= length (Game.pairs g))%nat ->
  (forall i p, (i < 4)%nat -> i <> k -> Game.pairs g !! i = Some p -> idle w p) ->
  (Game.run (g, w)).1 =
  if (len (Pattern.pattern (Game.pattern g)) <=? Game.index g) &&
     negb (sleep_accepts (PrimFloat.sub (Game.speed g) 0.1%float))
  then Raise ValueError
  else Ok tt.
Proof.
  intros Hb Hw Hfrom Hindex Hlen Hidle. pose proof Hb as [Hpool Hne _].
  unfold Game.run.
  rewrite (bind_ok (gets fst) _ (g, w) g (g, w)) by reflexivity.
  cbn beta.
  destruct (Z.leb_spec (len (Pattern.pattern (Game.pattern g))) (Game.index g))
    as [Hle|Hlt]; cbn [andb].
  - destruct (drawn_is_Some (Pattern.pairs (Game.pattern g)) w 0) as (x & Hx & Hxin);
      [now rewrite Hpool|].
    rewrite Hpool in Hxin.
    destruct (sleep_accepts (PrimFloat.sub (Game.speed g) 0.1%float)) eqn:Hs;
      cbn [negb].
    + rewrite (bind_ok _ _ _ _ _ (round_block_ok g w x Hx Hs)).
      apply (polls_one_press (next_round g x) (round_world g x w) k).
      * now apply extended_built.
      * exact Hw.
      * exact Hlen.
      * unfold next_round, extended. cbn [Game.pattern Game.index Pattern.pattern].
        change 0 with (Z.of_nat 0). rewrite item_nat.
        apply lookup_lt_is_Some_2. rewrite length_app. simpl. lia.
      * intros i p Hi4 Hik Hp. apply (idle_pins w); [|now apply (Hidle i)].
        apply round_world_pins; [assumption..|].
        intros q Hq. apply list_elem_of_lookup_2 in Hp.
        apply elem_of_app in Hq as [Hq|Hq].
        -- now apply (Hw p q).
        -- apply (Hw p q); [assumption|].
           rewrite Forall_forall in Hfrom. now apply Hfrom.
    + destruct (round_block_refused g w x Hx Hs) as (w2 & Hr).
      now rewrite (bind_raise _ _ _ _ _ Hr).
  - rewrite (bind_ok (mret tt) _ (g, w) tt (g, w)) by reflexivity.
    apply (polls_one_press g w k); try assumption.
    replace (Game.index g) with (Z.of_nat (Z.to_nat (Game.index g))) by lia.
    rewrite item_nat. apply lookup_lt_is_Some_2. unfold len in Hlt. lia.
Qed.

Lemma one_press_a_tick_is_safe_witness :
  (Game.run (Demo.constructed, with_pins (insert 17 false) Demo.assembled)).1 =
  if (len (Pattern.pattern (Game.pattern Demo.constructed)) <=? Game.index Demo.constructed) &&
     negb (sleep_accepts (PrimFloat.sub (Game.speed Demo.constructed) 0.1%float))
  then Raise ValueError
  else Ok tt.
Proof.
  apply (one_press_a_tick_is_safe Demo.constructed
           (with_pins (insert 17 false) Demo.assembled) 0).
  - split; [reflexivity | discriminate | reflexivity].
  - exact (main_pool_wired 0).
  - change (Forall (fun p => p ∈ Demo.pool) [Demo.blue; Demo.green; Demo.red]).
    unfold Demo.pool.
    repeat (apply Forall_cons_2; [rewrite !elem_of_cons; tauto|]).
    apply Forall_nil_2.
  - simpl. lia.
  - simpl. lia.
  - intros i p Hi Hne Hp.
    destruct i as [|[|[|[|i]]]]; try lia; injection Hp as <-;
      vm_compute; reflexivity.
Defined.
